(** * fast_hadamard_transform_interface.py: a shallow embedding

    The Python module wraps a compiled transform kernel in five autograd
    functions and provides a dense reference implementation,
    [hadamard_transform_ref].  Tensors are modelled as views (a storage
    identity, a shape and an index map) over a heap of flat storages, so that
    aliasing between a tensor and the views derived from it is visible.
    Tensor elements and the scale are exact integers: the reference
    implementation only adds, subtracts and multiplies. *)

From Stdlib Require Import String ZArith List Lia Bool Arith PeanoNat.
Import ListNotations.

Set Implicit Arguments.

(** ** Python exceptions and the heap monad *)

Inductive exn : Type :=
| ImportError (msg : string)
| AttributeError
| IndexError
| RuntimeError
| ValueError.

Inductive Result (A : Type) : Type :=
| Ok (a : A)
| Raise (e : exn).

Arguments Ok {A} a.
Arguments Raise {A} e.

(** A storage is a flat buffer of numbers; the heap lists the storages that
    have been allocated, a storage's identity being its position. *)
Abbreviation Storage := (list Z) (only parsing).
Definition Heap := list Storage.

Definition M (A : Type) : Type := Heap -> Result A * Heap.

Definition ret {A} (a : A) : M A := fun h => (Ok a, h).

Definition raise {A} (e : exn) : M A := fun h => (Raise e, h).

Definition bind {A B} (m : M A) (f : A -> M B) : M B :=
  fun h =>
    match m h with
    | (Ok a, h') => f a h'
    | (Raise e, h') => (Raise e, h')
    end.

Definition lift {A} (r : Result A) : M A := fun h => (r, h).

Declare Scope heap_monad_scope.
Delimit Scope heap_monad_scope with hm.
Notation "x <- m ;; k" := (bind m (fun x => k))
  (at level 61, m at next level, right associativity) : heap_monad_scope.
Open Scope heap_monad_scope.

(** Allocation appends a storage; nothing in this module ever frees one. *)
Definition alloc (data : Storage) : M nat :=
  fun h => (Ok (length h), h ++ [data]).

Definition get_heap : M Heap := fun h => (Ok h, h).

(** ** Tensors *)

(** A tensor is a view: element number [i] of the tensor (in row-major order
    of [shape]) lives at offset [nth i layout 0] of storage [storage]. *)
Record Tensor : Type := mkTensor {
  storage : nat;
  shape : list nat;
  layout : list nat
}.

Definition numel (s : list nat) : nat := fold_right Nat.mul 1 s.

Definition read (h : Heap) (sid off : nat) : Z := nth off (nth sid h []) 0%Z.

(** The elements of a tensor, in row-major order. *)
Definition contents (h : Heap) (t : Tensor) : list Z :=
  map (read h (storage t)) (layout t).

Definition contiguous (n : nat) : list nat := seq 0 n.

(** A fresh contiguous tensor holding [data]. *)
Definition new_tensor (s : list nat) (data : list Z) : M Tensor :=
  sid <- alloc data ;;
  ret (mkTensor sid s (contiguous (length data))).

(** [rows r n l] cuts [l] into [r] consecutive rows of length [n]. *)
Fixpoint rows {A} (r n : nat) (l : list A) : list (list A) :=
  match r with
  | O => []
  | S r' => firstn n l :: rows r' n (skipn n l)
  end.

(** [x.shape[-1]] *)
Definition shape_last (s : list nat) : Result nat :=
  match rev s with
  | [] => Raise IndexError
  | d :: _ => Ok d
  end.

Definition set_last (s : list nat) (d : nat) : list nat := removelast s ++ [d].

(** The number of rows of a tensor whose last dimension is [d]. *)
Definition row_count (s : list nat) : nat := numel (removelast s).

(** ** The numeric libraries the module calls *)

(** [math.ceil(math.log2(n))] on a Python integer: [math.log2] raises
    [ValueError] on a non-positive argument.  The floating-point logarithm is
    taken at its exact value. *)
Definition ceil_log2 (n : nat) : Result nat :=
  if n =? 0 then Raise ValueError else Ok (Nat.log2_up n).

Definition Matrix := list (list Z).

Definition hstack (A B : Matrix) : Matrix :=
  map (fun ab => fst ab ++ snd ab) (combine A B).

Definition vstack (A B : Matrix) : Matrix := A ++ B.

Definition neg (A : Matrix) : Matrix := map (map Z.opp) A.

(** Sylvester's construction, the loop body of [scipy.linalg.hadamard]:
    [H = vstack((hstack((H, H)), hstack((H, -H))))], run [k] times from
    [[[1]]]. *)
Fixpoint sylvester (k : nat) : Matrix :=
  match k with
  | O => [[1%Z]]
  | S k' =>
      let H := sylvester k' in
      vstack (hstack H H) (hstack H (neg H))
  end.

(** [scipy.linalg.hadamard(n)]: [n] must be a power of two. *)
Definition scipy_hadamard (n : nat) : Result Matrix :=
  let lg2 := if n <? 1 then 0 else Nat.log2 n in
  if 2 ^ lg2 =? n then Ok (sylvester lg2) else Raise ValueError.

(** [from scipy.linalg import hadamard] *)
Definition import_scipy_linalg_hadamard (scipy_installed : bool)
  : Result (nat -> Result Matrix) :=
  if scipy_installed then Ok scipy_hadamard
  else Raise (ImportError "No module named scipy").

(** Loading the module: the [try: from scipy.linalg import hadamard /
    except ImportError: hadamard = None] at its top.  The result is the
    value of the global [hadamard]. *)
Definition load_module (scipy_installed : bool)
  : Result (option (nat -> Result Matrix)) :=
  match import_scipy_linalg_hadamard scipy_installed with
  | Ok f => Ok (Some f)
  | Raise (ImportError _) => Ok None
  | Raise e => Raise e
  end.

Definition dot (u v : list Z) : Z :=
  fold_right Z.add 0%Z (map (fun ab => (fst ab * snd ab)%Z) (combine u v)).

(** The product of the matrix with rows [W] and the vector [v]. *)
Definition matvec (W : Matrix) (v : list Z) : list Z := map (dot v) W.

(** torch's shape inference for [reshape]: at most one entry may be [-1]; it
    is inferred from the number of elements, and is ambiguous when the other
    entries multiply to zero. *)
Definition known_size (s : list Z) : nat :=
  fold_right (fun d acc => if (d =? -1)%Z then acc else Z.to_nat d * acc) 1 s.

Definition infer_size (s : list Z) (n : nat) : Result (list nat) :=
  if existsb (fun d => (d <? -1)%Z) s then Raise RuntimeError
  else
    let newsize := known_size s in
    match count_occ Z.eq_dec s (-1)%Z with
    | 0 => if n =? newsize then Ok (map Z.to_nat s) else Raise RuntimeError
    | 1 =>
        if (n =? newsize) || ((0 <? newsize) && (n mod newsize =? 0)) then
          if newsize =? 0 then Raise RuntimeError
          else Ok (map (fun d => if (d =? -1)%Z then n / newsize
                                 else Z.to_nat d) s)
        else Raise RuntimeError
    | _ => Raise RuntimeError
    end.

Section Interface.

(** [torch.reshape] returns a view when it can and a copy otherwise, and
    callers must not depend on which; the choice is a parameter. *)
Variable reshape_is_view : Tensor -> list nat -> bool.

(** The module global [hadamard], bound when the module is loaded. *)
Variable hadamard : option (nat -> Result Matrix).

(** [t.reshape(s)], the shape being given entry by entry. *)
Definition reshape (t : Tensor) (s : list Z) : M Tensor :=
  s' <- lift (infer_size s (numel (shape t))) ;;
  if reshape_is_view t s' then ret (mkTensor (storage t) s' (layout t))
  else
    h <- get_heap ;;
    new_tensor s' (contents h t).

(** [F.pad(t, (0, p))]: [p] zeros after every row, in a new tensor. *)
Definition pad (t : Tensor) (p : nat) : M Tensor :=
  d <- lift (shape_last (shape t)) ;;
  h <- get_heap ;;
  let xs := rows (row_count (shape t)) d (contents h t) in
  new_tensor (set_last (shape t) (d + p))
             (concat (map (fun r => r ++ repeat 0%Z p) xs)).

(** [torch.tensor(H, dtype=..., device=...)] on a two-dimensional array. *)
Definition torch_tensor (H : Matrix) : M Tensor :=
  new_tensor [length H; length (hd [] H)] (concat H).

(** [F.linear(t, W)]: every row of [t] times the transpose of [W]. *)
Definition linear (t W : Tensor) : M Tensor :=
  d <- lift (shape_last (shape t)) ;;
  match shape W with
  | [m; k] =>
      if d =? k then
        h <- get_heap ;;
        let xs := rows (row_count (shape t)) d (contents h t) in
        let Wm := rows m k (contents h W) in
        new_tensor (set_last (shape t) m) (concat (map (matvec Wm) xs))
      else raise RuntimeError
  | _ => raise RuntimeError
  end.

(** [t * scale] *)
Definition mul_scalar (t : Tensor) (scale : Z) : M Tensor :=
  h <- get_heap ;;
  new_tensor (shape t) (map (fun v => (v * scale)%Z) (contents h t)).

(** [t[..., :n]]: a view on the first [n] elements of every row. *)
Definition slice_last (t : Tensor) (n : nat) : M Tensor :=
  d <- lift (shape_last (shape t)) ;;
  ret (mkTensor (storage t) (set_last (shape t) (Nat.min n d))
         (concat (map (firstn n) (rows (row_count (shape t)) d (layout t))))).

(** ** The reference implementation *)

Definition hadamard_transform_ref (x : Tensor) (scale : Z) : M Tensor :=
  match hadamard with
  | None => raise (ImportError "Please install scipy")
  | Some hadamard =>
      let x_shape := shape x in
      dim <- lift (shape_last (shape x)) ;;
      x <- reshape x [(-1)%Z; Z.of_nat dim] ;;
      log_dim <- lift (ceil_log2 dim) ;;
      let dim_padded := 2 ^ log_dim in
      x <- (if negb (dim =? dim_padded) then pad x (dim_padded - dim)
            else ret x) ;;
      H <- lift (hadamard dim_padded) ;;
      W <- torch_tensor H ;;
      out <- linear x W ;;
      out <- mul_scalar out scale ;;
      out <- slice_last out dim ;;
      reshape out (map Z.of_nat x_shape)
  end.

End Interface.

(** The elements of the tensor a computation returns. *)
Definition run_contents (m : M Tensor) (h : Heap) : Result (list Z) :=
  match m h with
  | (Ok t, h') => Ok (contents h' t)
  | (Raise e, _) => Raise e
  end.

(** ** The compiled kernels and the autograd functions *)

(** A kernel of the extension module takes [(x, scale, inplace)]; it may
    write to the heap. *)
Definition Kernel : Type := Tensor -> Z -> bool -> M Tensor.

(** The extension module [fast_hadamard_transform_cuda].  It is compiled
    code, so the autograd functions are modelled over any such module. *)
Record CudaModule : Type := {
  fast_hadamard_transform : Kernel;
  fast_hadamard_transform_12N : Kernel;
  fast_hadamard_transform_20N : Kernel;
  fast_hadamard_transform_28N : Kernel;
  fast_hadamard_transform_40N : Kernel
}.

(** The autograd context object, with the two attributes [forward] sets. *)
Record Ctx : Type := mkCtx {
  _hadamard_transform_scale : option Z;
  _inplace : option bool
}.

Definition empty_ctx : Ctx := mkCtx None None.

Definition set_hadamard_transform_scale (ctx : Ctx) (scale : Z) : Ctx :=
  mkCtx (Some scale) (_inplace ctx).

Definition set_inplace (ctx : Ctx) (inplace : bool) : Ctx :=
  mkCtx (_hadamard_transform_scale ctx) (Some inplace).

(** Reading an attribute that was never set raises [AttributeError]. *)
Definition get_attr {A} (o : option A) : M A :=
  match o with
  | Some a => ret a
  | None => raise AttributeError
  end.

(** A [backward] returns a tuple; an entry is a tensor or [None]. *)
Definition Grads : Type := list (option Tensor).

Module HadamardTransformFn.

(** The parameters of [forward] after [ctx]. *)
Definition forward_inputs : list string := ["x"; "scale"; "inplace"]%string.

Definition forward (cuda : CudaModule) (ctx : Ctx) (x : Tensor) (scale : Z)
  (inplace : bool) : M (Ctx * Tensor) :=
  let ctx := set_hadamard_transform_scale ctx scale in
  let ctx := set_inplace ctx inplace in
  out <- fast_hadamard_transform cuda x scale inplace ;;
  ret (ctx, out).

Definition backward (cuda : CudaModule) (ctx : Ctx) (dout : Tensor)
  : M Grads :=
  scale <- get_attr (_hadamard_transform_scale ctx) ;;
  inplace <- get_attr (_inplace ctx) ;;
  dx <- fast_hadamard_transform cuda dout scale inplace ;;
  ret [Some dx; None].

End HadamardTransformFn.

Module HadamardTransform12NFn.

(** The parameters of [forward] after [ctx]. *)
Definition forward_inputs : list string := ["x"; "scale"; "inplace"]%string.

Definition forward (cuda : CudaModule) (ctx : Ctx) (x : Tensor) (scale : Z)
  (inplace : bool) : M (Ctx * Tensor) :=
  let ctx := set_hadamard_transform_scale ctx scale in
  let ctx := set_inplace ctx inplace in
  out <- fast_hadamard_transform_12N cuda x scale inplace ;;
  ret (ctx, out).

Definition backward (cuda : CudaModule) (ctx : Ctx) (dout : Tensor)
  : M Grads :=
  scale <- get_attr (_hadamard_transform_scale ctx) ;;
  inplace <- get_attr (_inplace ctx) ;;
  dx <- fast_hadamard_transform_12N cuda dout scale inplace ;;
  ret [Some dx; None].

End HadamardTransform12NFn.

Module HadamardTransform20NFn.

(** The parameters of [forward] after [ctx]. *)
Definition forward_inputs : list string := ["x"; "scale"; "inplace"]%string.

Definition forward (cuda : CudaModule) (ctx : Ctx) (x : Tensor) (scale : Z)
  (inplace : bool) : M (Ctx * Tensor) :=
  let ctx := set_hadamard_transform_scale ctx scale in
  let ctx := set_inplace ctx inplace in
  out <- fast_hadamard_transform_20N cuda x scale inplace ;;
  ret (ctx, out).

Definition backward (cuda : CudaModule) (ctx : Ctx) (dout : Tensor)
  : M Grads :=
  scale <- get_attr (_hadamard_transform_scale ctx) ;;
  inplace <- get_attr (_inplace ctx) ;;
  dx <- fast_hadamard_transform_20N cuda dout scale inplace ;;
  ret [Some dx; None].

End HadamardTransform20NFn.

Module HadamardTransform28NFn.

(** The parameters of [forward] after [ctx]. *)
Definition forward_inputs : list string := ["x"; "scale"; "inplace"]%string.

Definition forward (cuda : CudaModule) (ctx : Ctx) (x : Tensor) (scale : Z)
  (inplace : bool) : M (Ctx * Tensor) :=
  let ctx := set_hadamard_transform_scale ctx scale in
  let ctx := set_inplace ctx inplace in
  out <- fast_hadamard_transform_28N cuda x scale inplace ;;
  ret (ctx, out).

Definition backward (cuda : CudaModule) (ctx : Ctx) (dout : Tensor)
  : M Grads :=
  scale <- get_attr (_hadamard_transform_scale ctx) ;;
  inplace <- get_attr (_inplace ctx) ;;
  dx <- fast_hadamard_transform_28N cuda dout scale inplace ;;
  ret [Some dx; None].

End HadamardTransform28NFn.

Module HadamardTransform40NFn.

(** The parameters of [forward] after [ctx]. *)
Definition forward_inputs : list string := ["x"; "scale"; "inplace"]%string.

Definition forward (cuda : CudaModule) (ctx : Ctx) (x : Tensor) (scale : Z)
  (inplace : bool) : M (Ctx * Tensor) :=
  let ctx := set_hadamard_transform_scale ctx scale in
  let ctx := set_inplace ctx inplace in
  out <- fast_hadamard_transform_40N cuda x scale inplace ;;
  ret (ctx, out).

Definition backward (cuda : CudaModule) (ctx : Ctx) (dout : Tensor)
  : M Grads :=
  scale <- get_attr (_hadamard_transform_scale ctx) ;;
  inplace <- get_attr (_inplace ctx) ;;
  dx <- fast_hadamard_transform_40N cuda dout scale inplace ;;
  ret [Some dx; None].

End HadamardTransform40NFn.

(** [Fn.apply(x, scale, inplace)]: the autograd engine calls [forward] on a
    new context and returns its output. *)
Definition apply (forward : Ctx -> Tensor -> Z -> bool -> M (Ctx * Tensor))
  (x : Tensor) (scale : Z) (inplace : bool) : M Tensor :=
  r <- forward empty_ctx x scale inplace ;;
  ret (snd r).

Definition hadamard_transform (cuda : CudaModule) (x : Tensor) (scale : Z)
  (inplace : bool) : M Tensor :=
  apply (HadamardTransformFn.forward cuda) x scale inplace.

Definition hadamard_transform_12N (cuda : CudaModule) (x : Tensor) (scale : Z)
  (inplace : bool) : M Tensor :=
  apply (HadamardTransform12NFn.forward cuda) x scale inplace.

Definition hadamard_transform_20N (cuda : CudaModule) (x : Tensor) (scale : Z)
  (inplace : bool) : M Tensor :=
  apply (HadamardTransform20NFn.forward cuda) x scale inplace.

Definition hadamard_transform_28N (cuda : CudaModule) (x : Tensor) (scale : Z)
  (inplace : bool) : M Tensor :=
  apply (HadamardTransform28NFn.forward cuda) x scale inplace.

Definition hadamard_transform_40N (cuda : CudaModule) (x : Tensor) (scale : Z)
  (inplace : bool) : M Tensor :=
  apply (HadamardTransform40NFn.forward cuda) x scale inplace.

(** One autograd function over an arbitrary kernel, for comparison with the
    five above. *)
Definition generic_forward (kernel : Kernel) (ctx : Ctx) (x : Tensor)
  (scale : Z) (inplace : bool) : M (Ctx * Tensor) :=
  out <- kernel x scale inplace ;;
  ret (mkCtx (Some scale) (Some inplace), out).

Definition generic_backward (kernel : Kernel) (ctx : Ctx) (dout : Tensor)
  : M Grads :=
  scale <- get_attr (_hadamard_transform_scale ctx) ;;
  inplace <- get_attr (_inplace ctx) ;;
  dx <- kernel dout scale inplace ;;
  ret [Some dx; None].

(** The reference transform applied to its own result. *)
Definition transform_twice (reshape_is_view : Tensor -> list nat -> bool)
  (hadamard : option (nat -> Result Matrix)) (x : Tensor) (scale : Z)
  : M Tensor :=
  y <- hadamard_transform_ref reshape_is_view hadamard x scale ;;
  hadamard_transform_ref reshape_is_view hadamard y scale.

(** ** Specifications of heap computations *)

Definition extends (h h' : Heap) : Prop := exists ext, h' = h ++ ext.

(** [triple m h Q E]: run from [h], [m] either returns a value and a heap
    that satisfy [Q], or raises an exception in a heap that satisfy [E]. *)
Definition triple {A} (m : M A) (h : Heap)
  (Q : A -> Heap -> Prop) (E : exn -> Heap -> Prop) : Prop :=
  match m h with
  | (Ok a, h') => Q a h'
  | (Raise e, h') => E e h'
  end.

Definition no_exn : exn -> Heap -> Prop := fun _ _ => False.

(** A tensor of shape [s] whose storage is allocated and whose elements are
    [data]. *)
Definition holds (h : Heap) (t : Tensor) (s : list nat) (data : list Z) : Prop :=
  storage t < length h /\ shape t = s /\ contents h t = data.

(** A tensor whose storage is allocated and whose index map has one entry
    per element. *)
Definition well_formed (h : Heap) (t : Tensor) : Prop :=
  storage t < length h /\ length (layout t) = numel (shape t).

(** ** Vectors *)

Definition vadd (u v : list Z) : list Z :=
  map (fun ab => (fst ab + snd ab)%Z) (combine u v).

Definition vsub (u v : list Z) : list Z :=
  map (fun ab => (fst ab - snd ab)%Z) (combine u v).

Definition vscale (a : Z) (u : list Z) : list Z := map (Z.mul a) u.

(** [a * u + b * v] *)
Definition vlin (a : Z) (u : list Z) (b : Z) (v : list Z) : list Z :=
  vadd (vscale a u) (vscale b v).

(** ** The reference implementation, row by row *)

(** ** The fast path *)

(** The compiled kernels behind [fast_hadamard_transform_cuda] are not part
    of the Python module.  The definitions of this section follow the
    specification's description of them, component by component. *)

(** Modelled from the spec: the base factors of the kernels, which the Python
    module only names; one of 1, 12, 20, 28 and 40. *)
Inductive Base : Type := Base1 | Base12 | Base20 | Base28 | Base40.

Definition base_value (b : Base) : nat :=
  match b with
  | Base1 => 1
  | Base12 => 12
  | Base20 => 20
  | Base28 => 28
  | Base40 => 40
  end.

(** Modelled from the spec: the Size Resolver's search for the smallest
    [k >= 0] with [base * 2 ^ k >= len], the kernel's own code being
    absent; [k] runs up to an implementation-defined maximum. *)
Fixpoint find_k (len base fuel k : nat) : option nat :=
  match fuel with
  | O => None
  | S fuel' =>
      if len <=? base * 2 ^ k then Some k
      else find_k len base fuel' (S k)
  end.

(** Modelled from the spec: the Size Resolver, absent from the sources.
    [resolve len base] is [(padded_length, pad_amount)]; it fails with an
    invalid-size error on a length of 0 and on a length beyond
    [base * 2 ^ k_max]. *)
Definition resolve (k_max len : nat) (base : Base) : Result (nat * nat) :=
  if len =? 0 then Raise RuntimeError
  else
    match find_k len (base_value base) (S k_max) 0 with
    | Some k =>
        let padded_length := base_value base * 2 ^ k in
        Ok (padded_length, padded_length - len)
    | None => Raise RuntimeError
    end.

(** Modelled from the spec: one block of a butterfly stage, absent from the
    sources: element [i] of the first half is paired with element
    [i + half], and the pair [(a, b)] becomes [(a + b, a - b)]. *)
Definition butterfly_block (half : nat) (blk : list Z) : list Z :=
  let a := firstn half blk in
  let b := skipn half blk in
  vadd a b ++ vsub a b.

(** Modelled from the spec: stage [s] of the Butterfly Core, absent from the
    sources, on blocks of size [2 ^ (s + 1)]. *)
Definition stage (s : nat) (buf : list Z) : list Z :=
  let block := 2 ^ S s in
  concat (map (butterfly_block (2 ^ s)) (rows (length buf / block) block buf)).

(** Modelled from the spec: the Butterfly Core, absent from the sources, on a
    buffer of length [2 ^ k]: stages [0] to [k - 1] in order. *)
Definition transform_pow2 (buf : list Z) : list Z :=
  fold_left (fun b s => stage s b) (seq 0 (Nat.log2 (length buf))) buf.

(** Modelled from the spec: the Base-Factor Kernel, absent from the sources:
    the identity for base 1, the product with the fixed matrix of the base
    otherwise.  The matrices are constants of the kernel; they are taken as
    a parameter. *)
Definition transform_base (base : Base) (M_base : Matrix) (buf : list Z)
  : list Z :=
  match base with
  | Base1 => buf
  | _ => matvec M_base buf
  end.

(** [transpose n m]: the [n] columns of the rows [m]. *)
Fixpoint transpose (n : nat) (m : list (list Z)) : list (list Z) :=
  match n with
  | O => []
  | S n' => map (hd 0%Z) m :: transpose n' (map (@tl Z) m)
  end.

(** Modelled from the spec: the Variant Composer, absent from the sources, on
    a buffer of length [base * 2 ^ k] seen as [2 ^ k] blocks of length
    [base]: the butterfly on each of the [base] interleaved lanes, then the
    base transform on each block, which is skipped for base 1. *)
Definition transform (base : Base) (M_base : Matrix) (buf : list Z)
  : list Z :=
  let b := base_value base in
  let n := length buf / b in
  let lanes := transpose b (rows n b buf) in
  let blocks := transpose n (map transform_pow2 lanes) in
  match base with
  | Base1 => concat blocks
  | _ => concat (map (transform_base base M_base) blocks)
  end.

(** Overwriting the elements of a view. *)
Fixpoint list_set {A} (l : list A) (i : nat) (v : A) : list A :=
  match l, i with
  | [], _ => []
  | _ :: l', O => v :: l'
  | a :: l', S i' => a :: list_set l' i' v
  end.

Definition write_tensor (t : Tensor) (data : list Z) : M unit :=
  fun h =>
    let st := nth (storage t) h [] in
    let st' := fold_left (fun acc ov => list_set acc (fst ov) (snd ov))
                 (combine (layout t) data) st in
    (Ok tt, list_set h (storage t) st').

(** Modelled from the spec: the Padding/Truncation Shim and top-level
    operation [apply(row, scale, inplace, base)], absent from the sources,
    over every row of a tensor: resolve the padded length, pad with zeros,
    transform, scale, truncate.  In place, the result is written to the
    input's storage, and a row that needs padding is rejected; otherwise the
    result is a new tensor. *)
Definition fast_kernel (k_max : nat) (base : Base) (M_base : Matrix)
  : Kernel :=
  fun x scale inplace =>
    dim <- lift (shape_last (shape x)) ;;
    sizes <- lift (resolve k_max dim base) ;;
    let pad_amount := snd sizes in
    if inplace && (0 <? pad_amount) then raise RuntimeError
    else
      h <- get_heap ;;
      let data :=
        concat
          (map (fun row =>
                  firstn dim
                    (map (fun v => (v * scale)%Z)
                       (transform base M_base (row ++ repeat 0%Z pad_amount))))
             (rows (row_count (shape x)) dim (contents h x))) in
      if inplace then
        _ <- write_tensor x data ;;
        ret x
      else new_tensor (shape x) data.

(** Modelled from the spec: the extension module, absent from the sources,
    one kernel per base factor. *)
Definition spec_cuda (k_max : nat) (M_12 M_20 M_28 M_40 : Matrix)
  : CudaModule :=
  {| fast_hadamard_transform := fast_kernel k_max Base1 [[1%Z]];
     fast_hadamard_transform_12N := fast_kernel k_max Base12 M_12;
     fast_hadamard_transform_20N := fast_kernel k_max Base20 M_20;
     fast_hadamard_transform_28N := fast_kernel k_max Base28 M_28;
     fast_hadamard_transform_40N := fast_kernel k_max Base40 M_40 |}.

(** A symmetric Hadamard matrix of order 12, to run the base-12 kernel on. *)
Definition had_12 : Matrix :=
  [[ 1; -1;  1;  1;  1;  1;  1;  1;  1;  1;  1;  1];
   [-1; -1;  1; -1;  1; -1;  1; -1;  1; -1;  1; -1];
   [ 1;  1;  1; -1;  1;  1; -1; -1; -1; -1;  1;  1];
   [ 1; -1; -1; -1;  1; -1; -1;  1; -1;  1;  1; -1];
   [ 1;  1;  1;  1;  1; -1;  1;  1; -1; -1; -1; -1];
   [ 1; -1;  1; -1; -1; -1;  1; -1; -1;  1; -1;  1];
   [ 1;  1; -1; -1;  1;  1;  1; -1;  1;  1; -1; -1];
   [ 1; -1; -1;  1;  1; -1; -1; -1;  1; -1; -1;  1];
   [ 1;  1; -1; -1; -1; -1;  1;  1;  1; -1;  1;  1];
   [ 1; -1; -1;  1; -1;  1;  1; -1; -1; -1;  1; -1];
   [ 1;  1;  1;  1; -1; -1; -1; -1;  1;  1;  1; -1];
   [ 1; -1;  1; -1; -1;  1; -1;  1;  1; -1; -1; -1]]%Z.

(** The transform of one row of length [dim]: zero-pad to the padded length,
    multiply by the dense matrix, scale, keep the first [dim] elements. *)
Definition ref_row (dim : nat) (scale : Z) (r : list Z) : list Z :=
  let log_dim := Nat.log2_up dim in
  let dim_padded := 2 ^ log_dim in
  firstn dim
    (map (fun v => (v * scale)%Z)
       (matvec (sylvester log_dim) (r ++ repeat 0%Z (dim_padded - dim)))).

Definition ref_data (s : list nat) (dim : nat) (scale : Z) (d : list Z)
  : list Z :=
  concat (map (ref_row dim scale) (rows (row_count s) dim d)).

(** ** Further notions used in the statements *)

(** [t] lives in a storage that [h'] has and [h] had not. *)
Definition allocated (h : Heap) (t : Tensor) (h' : Heap) : Prop :=
  exists d, h' = h ++ [d] /\ storage t = length h.

(** The heap is as it was. *)
Definition unchanged (h : Heap) : exn -> Heap -> Prop := fun _ h' => h' = h.

(** A computation that leaves every storage of [h] as it was and, when it
    returns a tensor, returns one whose storage did not exist in [h]. *)
Definition fresh_result (m : M Tensor) (h : Heap) : Prop :=
  let '(r, h') := m h in
  firstn (length h) h' = h /\
  match r with
  | Ok t => length h <= storage t < length h'
  | Raise _ => True
  end.

(** What [backward] does with the saved scale and flag: it runs [kernel] on
    the incoming gradient and returns a tuple of two entries, the transformed
    gradient and one [None], for a [forward] of three inputs. *)
Definition backward_two_slots (backward : Ctx -> Tensor -> M Grads)
  (kernel : Kernel) (forward_inputs : list string)
  (scale : Z) (inplace : bool) (g : Tensor) (h : Heap) : Prop :=
  let '(r, h') := backward (mkCtx (Some scale) (Some inplace)) g h in
  match r with
  | Ok grads =>
      exists dx,
        kernel g scale inplace h = (Ok dx, h') /\
        grads = [Some dx; None] /\
        length grads = 2 /\
        length forward_inputs = 3
  | Raise e => kernel g scale inplace h = (Raise e, h')
  end.

(** [a * U + b * V], row by row. *)
Definition vlins (a : Z) (U : list (list Z)) (b : Z) (V : list (list Z))
  : list (list Z) :=
  map (fun uv => vlin a (fst uv) b (snd uv)) (combine U V).

(** Two lists of rows with the same number of rows and the same lengths. *)
Definition same_shape (U V : list (list Z)) : Prop :=
  Forall2 (fun u v => length u = length v) U V.

(** A function on rows that commutes with linear combinations of rows of one
    length and whose result's length depends on the argument's only. *)
Definition linear1 (f : list Z -> list Z) : Prop :=
  forall a b u v,
    length u = length v ->
    f (vlin a u b v) = vlin a (f u) b (f v) /\ length (f u) = length (f v).

(** The same for functions on lists of rows. *)
Definition linear2 (G : list (list Z) -> list (list Z)) : Prop :=
  forall a b U V,
    same_shape U V ->
    G (vlins a U b V) = vlins a (G U) b (G V) /\ same_shape (G U) (G V).

(** The unit row number [i] of length [n]. *)
Definition unit_row (n i : nat) : list Z :=
  map (fun j => if j =? i then 1%Z else 0%Z) (seq 0 n).

(** ** Example inputs *)

Definition C3_heap : Heap := [[1; 2; 3; 4; 5; 6]%Z].
Definition C3_x : Tensor := mkTensor 0 [2; 3] (contiguous 6).
Definition C10_heap : Heap := [[5; -7; 11]%Z].
Definition C10_x : Tensor := mkTensor 0 [3; 1] (contiguous 3).
Definition C7_x : Tensor := mkTensor 0 [3; 0] [].
Definition C4_heap : Heap := [[1; 2; 3; 4]%Z].
Definition C4_x : Tensor := mkTensor 0 [4] (contiguous 4).
Definition C4_heap3 : Heap := [[1; 0; 0]%Z].
Definition C4_x3 : Tensor := mkTensor 0 [3] (contiguous 3).
Definition C5_heap : Heap :=
  [[1; 2; 3]%Z; [4; 0; -1]%Z; [14; 4; 3]%Z].
Definition C5_x : Tensor := mkTensor 0 [1; 3] (contiguous 3).
Definition C5_y : Tensor := mkTensor 1 [1; 3] (contiguous 3).
Definition C5_z : Tensor := mkTensor 2 [1; 3] (contiguous 3).
Definition C2_heap : Heap := [[1; 2; 3; 4; 5; 6]%Z].
Definition C2_x : Tensor := mkTensor 0 [2; 3] (contiguous 6).
Definition C2_heap12 : Heap := [[1; 0; 0; 0; 0; 0; 0; 0; 0; 0; 0; 0]%Z].
Definition C2_x12 : Tensor := mkTensor 0 [12] (contiguous 12).

(** The sum of a row and the sum of its absolute values. *)
Definition vsum (l : list Z) : Z := fold_right Z.add 0%Z l.

Definition norm1 (l : list Z) : Z :=
  fold_right (fun x acc => (Z.abs x + acc)%Z) 0%Z l.

Definition ex_heap : Heap := [[1; -2; 3; 4; 0; 6]%Z; [2; 7; -1; 0; 5; 3]%Z].
Definition ex_x : Tensor := mkTensor 0 [2; 3] (contiguous 6).
Definition ex_g : Tensor := mkTensor 1 [2; 3] (contiguous 6).
Definition ex_heap4 : Heap := [[1; -2; 3; 4; 0; 6; 5; -1]%Z].
Definition ex_x4 : Tensor := mkTensor 0 [2; 4] (contiguous 8).
Definition ex_flat : Tensor := mkTensor 0 [1; 2; 1; 3] (contiguous 6).
Definition ex_heap_pad : Heap :=
  [[1; -2; 3; 4; 0; 6]%Z; [1; -2; 3; 0; 4; 0; 6; 0]%Z].
Definition ex_xp : Tensor := mkTensor 1 [2; 4] (contiguous 8).

(** A module of kernels to run the autograd functions on: every kernel
    returns its input. *)
Definition ex_cuda : CudaModule :=
  {| fast_hadamard_transform := fun x _ _ => ret x;
     fast_hadamard_transform_12N := fun x _ _ => ret x;
     fast_hadamard_transform_20N := fun x _ _ => ret x;
     fast_hadamard_transform_28N := fun x _ _ => ret x;
     fast_hadamard_transform_40N := fun x _ _ => ret x |}.

(** * Properties *)

(** ** Lists of rows *)

Lemma rows_length {A} (r n : nat) (l : list A) : length (rows r n l) = r.
Proof. revert l; induction r; simpl; intros; auto. Qed.

Lemma rows_map {A B} (f : A -> B) (r n : nat) (l : list A) :
  rows r n (map f l) = map (map f) (rows r n l).
Proof.
  revert l; induction r as [|r IH]; simpl; intros; auto.
  now rewrite firstn_map, skipn_map, IH.
Qed.

Lemma rows_concat {A} (n : nat) (ls : list (list A)) :
  Forall (fun r => length r = n) ls ->
  rows (length ls) n (concat ls) = ls.
Proof.
  induction 1 as [|r ls Hr _ IH]; simpl; auto.
  subst n. rewrite firstn_app, skipn_app, Nat.sub_diag. simpl.
  rewrite firstn_all, app_nil_r, skipn_all. simpl. now rewrite IH.
Qed.

Lemma rows_concat_eq {A} (r n : nat) (ls : list (list A)) :
  length ls = r ->
  Forall (fun x => length x = n) ls ->
  rows r n (concat ls) = ls.
Proof. intros <-. apply rows_concat. Qed.

Lemma rows_Forall_length {A} (r n : nat) (l : list A) :
  length l = r * n -> Forall (fun x => length x = n) (rows r n l).
Proof.
  revert l; induction r as [|r IH]; simpl; intros l Hl; constructor.
  - rewrite firstn_length_le; lia.
  - apply IH. rewrite length_skipn. lia.
Qed.

Lemma concat_rows {A} (r n : nat) (l : list A) :
  length l = r * n -> concat (rows r n l) = l.
Proof.
  revert l; induction r as [|r IH]; simpl; intros l Hl.
  - destruct l; simpl in *; auto; discriminate.
  - rewrite IH by (rewrite length_skipn; lia). apply firstn_skipn.
Qed.

Lemma rows_one {A} (n : nat) (l : list A) :
  length l = n -> rows 1 n l = [l].
Proof. intros <-. simpl. now rewrite firstn_all. Qed.

Lemma length_concat_const {A} (n : nat) (ls : list (list A)) :
  Forall (fun r => length r = n) ls -> length (concat ls) = length ls * n.
Proof.
  induction 1 as [|r ls Hr _ IH]; simpl; auto.
  rewrite length_app, IH, Hr. reflexivity.
Qed.

Lemma map_read_contiguous (h : Heap) (data : Storage) :
  map (read (h ++ [data]) (length h)) (contiguous (length data)) = data.
Proof.
  unfold read, contiguous. rewrite app_nth2, Nat.sub_diag by lia. simpl.
  apply nth_ext with (d := 0%Z) (d' := 0%Z).
  - now rewrite length_map, length_seq.
  - intros n Hn. rewrite length_map, length_seq in Hn.
    rewrite nth_indep with (d' := read [data] 0 0) by
      (now rewrite length_map, length_seq).
    rewrite map_nth with (f := fun o => nth o data 0%Z) (d := 0).
    now rewrite seq_nth.
Qed.

(** ** Reasoning about heap computations *)

Lemma extends_refl h : extends h h.
Proof. exists []. now rewrite app_nil_r. Qed.

Lemma extends_trans h1 h2 h3 : extends h1 h2 -> extends h2 h3 -> extends h1 h3.
Proof. intros [e1 ->] [e2 ->]. exists (e1 ++ e2). now rewrite app_assoc. Qed.

Lemma extends_alloc h d : extends h (h ++ [d]).
Proof. now exists [d]. Qed.

Lemma extends_length h h' : extends h h' -> length h <= length h'.
Proof. intros [e ->]. rewrite length_app. lia. Qed.

Lemma extends_firstn h h' : extends h h' -> firstn (length h) h' = h.
Proof.
  intros [e ->]. rewrite firstn_app, Nat.sub_diag, firstn_all. simpl.
  apply app_nil_r.
Qed.

Lemma extends_read h h' sid off :
  extends h h' -> sid < length h -> read h' sid off = read h sid off.
Proof. intros [e ->] Hs. unfold read. now rewrite app_nth1. Qed.

Lemma extends_contents h h' t :
  extends h h' -> storage t < length h -> contents h' t = contents h t.
Proof.
  intros He Hs. unfold contents. apply map_ext. intros o.
  now apply extends_read.
Qed.

Lemma holds_extends h h' t s d :
  extends h h' -> holds h t s d -> holds h' t s d.
Proof.
  intros He (Hs & Hsh & Hc). repeat split; auto.
  - pose proof (extends_length He). lia.
  - now rewrite (extends_contents _ He Hs).
Qed.

Create HintDb heap.
#[local] Hint Resolve extends_refl extends_alloc extends_trans : heap.

Lemma triple_bind {A B} (m : M A) (f : A -> M B) h Q E :
  triple m h (fun a h' => triple (f a) h' Q E) E ->
  triple (bind m f) h Q E.
Proof. unfold triple, bind. destruct (m h) as [[a|e] h']; auto. Qed.

Lemma triple_conseq {A} (m : M A) h (Q Q' : A -> Heap -> Prop)
  (E E' : exn -> Heap -> Prop) :
  triple m h Q E ->
  (forall a h', Q a h' -> Q' a h') ->
  (forall e h', E e h' -> E' e h') ->
  triple m h Q' E'.
Proof. unfold triple. destruct (m h) as [[a|e] h']; auto. Qed.

Lemma triple_ret {A} (a : A) h (Q : A -> Heap -> Prop) E :
  Q a h -> triple (ret a) h Q E.
Proof. auto. Qed.

Lemma triple_lift_ok {A} (r : Result A) a h (Q : A -> Heap -> Prop) E :
  r = Ok a -> Q a h -> triple (lift r) h Q E.
Proof. intros ->. auto. Qed.

Lemma triple_get_heap h (Q : Heap -> Heap -> Prop) E :
  Q h h -> triple get_heap h Q E.
Proof. auto. Qed.

Lemma triple_new_tensor s d h (Q : Tensor -> Heap -> Prop) E :
  Q (mkTensor (length h) s (contiguous (length d))) (h ++ [d]) ->
  triple (new_tensor s d) h Q E.
Proof. auto. Qed.

Lemma holds_new_tensor h s d :
  holds (h ++ [d]) (mkTensor (length h) s (contiguous (length d))) s d.
Proof.
  repeat split; simpl.
  - rewrite length_app. simpl. lia.
  - apply map_read_contiguous.
Qed.

(** ** Shapes *)

Lemma shape_last_inv s d :
  shape_last s = Ok d -> s = removelast s ++ [d].
Proof.
  unfold shape_last. destruct (rev s) as [|d' r] eqn:Hr; [discriminate|].
  intros [= ->]. apply (f_equal (@rev nat)) in Hr. rewrite rev_involutive in Hr.
  simpl in Hr. rewrite Hr. rewrite removelast_last. reflexivity.
Qed.

Lemma numel_app s1 s2 : numel (s1 ++ s2) = numel s1 * numel s2.
Proof.
  unfold numel. induction s1 as [|a s1 IH]; simpl; [lia|].
  rewrite IH. lia.
Qed.

Lemma numel_last s d :
  shape_last s = Ok d -> numel s = row_count s * d.
Proof.
  intros H. rewrite (shape_last_inv s H) at 1. rewrite numel_app.
  unfold row_count. simpl. lia.
Qed.

Lemma shape_last_set_last s d : shape_last (set_last s d) = Ok d.
Proof. unfold shape_last, set_last. now rewrite rev_unit. Qed.

Lemma row_count_set_last s d : row_count (set_last s d) = row_count s.
Proof. unfold row_count, set_last. now rewrite removelast_last. Qed.

Lemma set_last_same s d : shape_last s = Ok d -> set_last s d = s.
Proof. intros H. symmetry. now apply shape_last_inv. Qed.

Lemma set_last_set_last s d d' : set_last (set_last s d) d' = set_last s d'.
Proof. unfold set_last. now rewrite removelast_last. Qed.

Lemma infer_size_rows (r dim : nat) :
  0 < dim -> infer_size [(-1)%Z; Z.of_nat dim] (r * dim) = Ok [r; dim].
Proof.
  intros Hd. unfold infer_size. simpl existsb.
  replace (Z.of_nat dim <? -1)%Z with false by (symmetry; apply Z.ltb_ge; lia).
  simpl. destruct (Z.eq_dec (Z.of_nat dim) (-1)) as [E|_]; [lia|].
  replace (Z.of_nat dim =? -1)%Z with false by (symmetry; apply Z.eqb_neq; lia).
  rewrite Nat2Z.id, Nat.mul_1_r.
  replace (0 <? dim) with true by (symmetry; apply Nat.ltb_lt; lia).
  rewrite Nat.Div0.mod_mul, Nat.eqb_refl, orb_true_r.
  replace (dim =? 0) with false by (symmetry; apply Nat.eqb_neq; lia).
  rewrite Nat.div_mul by lia. reflexivity.
Qed.

Lemma existsb_negative_of_nat (s : list nat) :
  existsb (fun d => (d <? -1)%Z) (map Z.of_nat s) = false.
Proof.
  induction s as [|a s IH]; simpl; auto. rewrite IH, orb_false_r.
  apply Z.ltb_ge. lia.
Qed.

Lemma count_occ_of_nat (s : list nat) :
  count_occ Z.eq_dec (map Z.of_nat s) (-1)%Z = 0.
Proof.
  induction s as [|a s IH]; simpl; auto.
  destruct (Z.eq_dec (Z.of_nat a) (-1)); [lia|auto].
Qed.

Lemma known_size_of_nat (s : list nat) :
  known_size (map Z.of_nat s) = numel s.
Proof.
  induction s as [|a s IH]; simpl; auto.
  replace (Z.of_nat a =? -1)%Z with false by (symmetry; apply Z.eqb_neq; lia).
  now rewrite Nat2Z.id, IH.
Qed.

Lemma infer_size_exact (s : list nat) :
  infer_size (map Z.of_nat s) (numel s) = Ok s.
Proof.
  unfold infer_size.
  rewrite existsb_negative_of_nat, count_occ_of_nat, known_size_of_nat.
  rewrite Nat.eqb_refl. f_equal.
  rewrite map_map. rewrite <- (map_id s) at 2. apply map_ext.
  intros a. apply Nat2Z.id.
Qed.

Lemma infer_size_zero_row (n : nat) :
  infer_size [(-1)%Z; Z.of_nat 0] n = Raise RuntimeError.
Proof.
  unfold infer_size. simpl. destruct (n =? 0); reflexivity.
Qed.

(** ** What each tensor operation computes *)

Section Operations.

Variable reshape_is_view : Tensor -> list nat -> bool.

Lemma reshape_spec h t s d sz s' :
  holds h t s d ->
  infer_size sz (numel s) = Ok s' ->
  triple (reshape reshape_is_view t sz) h
    (fun t' h' =>
       extends h h' /\ holds h' t' s' d /\
       (storage t' = storage t \/ length h <= storage t'))
    no_exn.
Proof.
  intros (Hs & Hsh & Hc) Hi. unfold reshape.
  apply triple_bind. rewrite Hsh. eapply triple_lift_ok; [exact Hi|].
  destruct (reshape_is_view t s').
  - apply triple_ret. repeat split; auto with heap.
  - apply triple_bind, triple_get_heap.
    apply triple_new_tensor. rewrite Hc.
    split; [auto with heap|]. split; [apply holds_new_tensor|].
    right. simpl. lia.
Qed.

Lemma pad_spec h t s d dd p :
  holds h t s d ->
  shape_last s = Ok dd ->
  triple (pad t p) h
    (fun t' h' =>
       extends h h' /\
       holds h' t' (set_last s (dd + p))
         (concat (map (fun r => r ++ repeat 0%Z p) (rows (row_count s) dd d))))
    no_exn.
Proof.
  intros (Hs & Hsh & Hc) Hl. unfold pad.
  apply triple_bind. rewrite Hsh. eapply triple_lift_ok; [exact Hl|].
  apply triple_bind, triple_get_heap.
  apply triple_new_tensor. rewrite Hc.
  split; [auto with heap | apply holds_new_tensor].
Qed.

Lemma torch_tensor_spec h (H : Matrix) :
  triple (torch_tensor H) h
    (fun t' h' =>
       extends h h' /\
       holds h' t' [length H; length (hd [] H)] (concat H))
    no_exn.
Proof.
  unfold torch_tensor. apply triple_new_tensor.
  split; [auto with heap | apply holds_new_tensor].
Qed.

Lemma linear_spec h t W s d m k dW :
  holds h t s d ->
  holds h W [m; k] dW ->
  shape_last s = Ok k ->
  triple (linear t W) h
    (fun t' h' =>
       extends h h' /\
       holds h' t' (set_last s m)
         (concat (map (matvec (rows m k dW)) (rows (row_count s) k d))))
    no_exn.
Proof.
  intros (Hs & Hsh & Hc) (HWs & HWsh & HWc) Hl. unfold linear.
  apply triple_bind. rewrite Hsh. eapply triple_lift_ok; [exact Hl|].
  rewrite HWsh, Nat.eqb_refl.
  apply triple_bind, triple_get_heap.
  apply triple_new_tensor. rewrite Hc, HWc.
  split; [auto with heap | apply holds_new_tensor].
Qed.

Lemma mul_scalar_spec h t s d scale :
  holds h t s d ->
  triple (mul_scalar t scale) h
    (fun t' h' =>
       extends h h' /\ storage t' = length h /\
       holds h' t' s (map (fun v => (v * scale)%Z) d))
    no_exn.
Proof.
  intros (Hs & Hsh & Hc). unfold mul_scalar.
  apply triple_bind, triple_get_heap.
  apply triple_new_tensor. rewrite Hc, Hsh.
  split; [auto with heap|]. split; [reflexivity | apply holds_new_tensor].
Qed.

Lemma slice_last_spec h t s d dd n :
  holds h t s d ->
  shape_last s = Ok dd ->
  triple (slice_last t n) h
    (fun t' h' =>
       h' = h /\ storage t' = storage t /\
       holds h t' (set_last s (Nat.min n dd))
         (concat (map (firstn n) (rows (row_count s) dd d))))
    no_exn.
Proof.
  intros (Hs & Hsh & Hc) Hl. unfold slice_last.
  apply triple_bind. rewrite Hsh. eapply triple_lift_ok; [exact Hl|].
  apply triple_ret. repeat split; auto.
  unfold contents in *. simpl. rewrite <- Hc.
  rewrite concat_map, map_map, rows_map, map_map.
  f_equal. apply map_ext. intros r. symmetry. apply firstn_map.
Qed.

End Operations.

(** ** Vectors and the Sylvester matrices *)

Lemma vadd_length u v : length u = length v -> length (vadd u v) = length u.
Proof. intros H. unfold vadd. rewrite length_map, length_combine. lia. Qed.

Lemma vsub_length u v : length u = length v -> length (vsub u v) = length u.
Proof. intros H. unfold vsub. rewrite length_map, length_combine. lia. Qed.

Lemma dot_nil_l v : dot [] v = 0%Z.
Proof. reflexivity. Qed.

Lemma dot_cons a u b v : dot (a :: u) (b :: v) = (a * b + dot u v)%Z.
Proof. reflexivity. Qed.

Lemma dot_app u1 u2 r1 r2 :
  length u1 = length r1 ->
  dot (u1 ++ u2) (r1 ++ r2) = (dot u1 r1 + dot u2 r2)%Z.
Proof.
  revert r1; induction u1 as [|a u1 IH]; intros [|b r1] H;
    try discriminate H.
  - reflexivity.
  - injection H as H. rewrite <- !app_comm_cons, !dot_cons, IH by exact H. lia.
Qed.

Lemma dot_opp_r u r : dot u (map Z.opp r) = (- dot u r)%Z.
Proof.
  revert r; induction u as [|a u IH]; intros [|b r]; try reflexivity.
  rewrite map_cons, !dot_cons, IH. lia.
Qed.

Lemma vadd_cons a u b v : vadd (a :: u) (b :: v) = (a + b)%Z :: vadd u v.
Proof. reflexivity. Qed.

Lemma vsub_cons a u b v : vsub (a :: u) (b :: v) = (a - b)%Z :: vsub u v.
Proof. reflexivity. Qed.

Lemma vscale_cons a b u : vscale a (b :: u) = (a * b)%Z :: vscale a u.
Proof. reflexivity. Qed.

Lemma dot_vadd_l u v r :
  length u = length v -> dot (vadd u v) r = (dot u r + dot v r)%Z.
Proof.
  revert v r; induction u as [|a u IH]; intros [|b v] [|c r] H;
    try discriminate H; try reflexivity.
  injection H as H. rewrite vadd_cons, !dot_cons, IH by exact H. lia.
Qed.

Lemma dot_vsub_l u v r :
  length u = length v -> dot (vsub u v) r = (dot u r - dot v r)%Z.
Proof.
  revert v r; induction u as [|a u IH]; intros [|b v] [|c r] H;
    try discriminate H; try reflexivity.
  injection H as H. rewrite vsub_cons, !dot_cons, IH by exact H. lia.
Qed.

Lemma dot_vscale_l a u r : dot (vscale a u) r = (a * dot u r)%Z.
Proof.
  revert r; induction u as [|b u IH]; intros [|c r];
    try (unfold dot; simpl; lia).
  rewrite vscale_cons, !dot_cons, IH. lia.
Qed.

Lemma dot_repeat_0_r u n : dot u (repeat 0%Z n) = 0%Z.
Proof.
  revert n; induction u as [|a u IH]; intros [|n]; try reflexivity.
  cbn [repeat]. rewrite dot_cons, IH. lia.
Qed.

Lemma vadd_map {A} (f g : A -> Z) (l : list A) :
  vadd (map f l) (map g l) = map (fun x => (f x + g x)%Z) l.
Proof. unfold vadd. induction l; simpl; congruence. Qed.

Lemma vsub_map {A} (f g : A -> Z) (l : list A) :
  vsub (map f l) (map g l) = map (fun x => (f x - g x)%Z) l.
Proof. unfold vsub. induction l; simpl; congruence. Qed.

Lemma matvec_length W v : length (matvec W v) = length W.
Proof. apply length_map. Qed.

Lemma matvec_vadd W u v :
  length u = length v ->
  matvec W (vadd u v) = vadd (matvec W u) (matvec W v).
Proof.
  intros H. unfold matvec. rewrite vadd_map. apply map_ext.
  intros r. now apply dot_vadd_l.
Qed.

Lemma matvec_vsub W u v :
  length u = length v ->
  matvec W (vsub u v) = vsub (matvec W u) (matvec W v).
Proof.
  intros H. unfold matvec. rewrite vsub_map. apply map_ext.
  intros r. now apply dot_vsub_l.
Qed.

Lemma matvec_vscale W a u : matvec W (vscale a u) = vscale a (matvec W u).
Proof.
  unfold matvec, vscale. rewrite map_map. apply map_ext.
  intros r. apply dot_vscale_l.
Qed.

Lemma combine_diag {A} (l : list A) : combine l l = map (fun x => (x, x)) l.
Proof. induction l; simpl; congruence. Qed.

Lemma combine_map_r {A B} (f : A -> B) (l : list A) :
  combine l (map f l) = map (fun x => (x, f x)) l.
Proof. induction l; simpl; congruence. Qed.

Lemma sylvester_succ k :
  sylvester (S k) =
  map (fun r => r ++ r) (sylvester k) ++
  map (fun r => r ++ map Z.opp r) (sylvester k).
Proof.
  simpl. unfold vstack, hstack, neg.
  now rewrite combine_diag, combine_map_r, !map_map.
Qed.

Lemma sylvester_length k : length (sylvester k) = 2 ^ k.
Proof.
  induction k as [|k IH]; [reflexivity|].
  rewrite sylvester_succ, length_app, !length_map, IH. simpl. lia.
Qed.

Lemma sylvester_row_length k :
  Forall (fun r => length r = 2 ^ k) (sylvester k).
Proof.
  induction k as [|k IH]; [repeat constructor|].
  rewrite sylvester_succ. apply Forall_app. split; apply Forall_map;
    (eapply Forall_impl; [|exact IH]); simpl; intros r Hr;
    rewrite length_app, ?length_map, Hr; simpl; lia.
Qed.

(** The butterfly identity behind the fast transform. *)
Lemma matvec_sylvester_succ k u v :
  length u = 2 ^ k ->
  matvec (sylvester (S k)) (u ++ v) =
  vadd (matvec (sylvester k) u) (matvec (sylvester k) v) ++
  vsub (matvec (sylvester k) u) (matvec (sylvester k) v).
Proof.
  intros Hu. rewrite sylvester_succ. unfold matvec at 1.
  rewrite map_app, !map_map. unfold matvec. rewrite vadd_map, vsub_map.
  pose proof (sylvester_row_length k) as Hr. rewrite Forall_forall in Hr.
  f_equal; apply map_ext_in; intros r Hin; rewrite dot_app
    by (rewrite (Hr r Hin); exact Hu); rewrite ?dot_opp_r; lia.
Qed.

Lemma vadd_vadd_vsub p q :
  length p = length q -> vadd (vadd p q) (vsub p q) = vscale 2 p.
Proof.
  revert q; induction p as [|a p IH]; intros [|b q] H; try discriminate H;
    try reflexivity.
  injection H as H.
  rewrite !vadd_cons, vsub_cons, vadd_cons, vscale_cons, IH by exact H.
  f_equal. lia.
Qed.

Lemma vsub_vadd_vsub p q :
  length p = length q -> vsub (vadd p q) (vsub p q) = vscale 2 q.
Proof.
  revert q; induction p as [|a p IH]; intros [|b q] H; try discriminate H;
    try reflexivity.
  injection H as H.
  rewrite !vadd_cons, !vsub_cons, vscale_cons, IH by exact H.
  f_equal. lia.
Qed.

Lemma vscale_vscale a b u : vscale a (vscale b u) = vscale (a * b) u.
Proof.
  unfold vscale. rewrite map_map. apply map_ext. intros x. lia.
Qed.

Lemma vscale_app a u v : vscale a (u ++ v) = vscale a u ++ vscale a v.
Proof. apply map_app. Qed.

Lemma vscale_length a u : length (vscale a u) = length u.
Proof. apply length_map. Qed.

Lemma vadd_vscale a u v :
  vadd (vscale a u) (vscale a v) = vscale a (vadd u v).
Proof.
  revert v; induction u as [|x u IH]; intros [|y v]; try reflexivity.
  rewrite !vscale_cons, !vadd_cons, vscale_cons, IH. f_equal. lia.
Qed.

Lemma vsub_vscale a u v :
  vsub (vscale a u) (vscale a v) = vscale a (vsub u v).
Proof.
  revert v; induction u as [|x u IH]; intros [|y v]; try reflexivity.
  rewrite !vscale_cons, !vsub_cons, vscale_cons, IH. f_equal. lia.
Qed.

Lemma sylvester_0_matvec a : matvec (sylvester 0) [a] = [a].
Proof. unfold matvec, dot. cbn [sylvester map combine fold_right fst snd]. f_equal. lia. Qed.

(** [H * H = N * I] for the Sylvester matrix of order [N = 2 ^ k]. *)
Lemma sylvester_involution k x :
  length x = 2 ^ k ->
  matvec (sylvester k) (matvec (sylvester k) x) = vscale (Z.of_nat (2 ^ k)) x.
Proof.
  revert x; induction k as [|k IH]; intros x Hx.
  - destruct x as [|a [|b x]]; try discriminate Hx.
    rewrite !sylvester_0_matvec. unfold vscale. cbn [map].
    f_equal. change (2 ^ 0) with 1. lia.
  - assert (Hk : 2 ^ S k = 2 ^ k + 2 ^ k) by (simpl; lia).
    rewrite <- (firstn_skipn (2 ^ k) x).
    set (u := firstn (2 ^ k) x). set (v := skipn (2 ^ k) x).
    assert (Hu : length u = 2 ^ k) by (subst u; rewrite firstn_length_le; lia).
    assert (Hv : length v = 2 ^ k) by (subst v; rewrite length_skipn; lia).
    assert (HHu := matvec_length (sylvester k) u).
    assert (HHv := matvec_length (sylvester k) v).
    rewrite sylvester_length in HHu, HHv.
    rewrite matvec_sylvester_succ by exact Hu.
    rewrite matvec_sylvester_succ by (rewrite vadd_length; lia).
    rewrite matvec_vadd, matvec_vsub by lia.
    rewrite !IH by assumption.
    rewrite vadd_vadd_vsub, vsub_vadd_vsub by (rewrite !vscale_length; lia).
    rewrite !vscale_vscale, vscale_app. rewrite Hk.
    replace (Z.of_nat (2 ^ k + 2 ^ k)) with (2 * Z.of_nat (2 ^ k))%Z by lia.
    reflexivity.
Qed.

(** ** The padded length *)

Lemma pow2_log2_up_ge n : n <= 2 ^ Nat.log2_up n.
Proof.
  destruct n as [|[|n]]; simpl; try lia.
  apply Nat.log2_up_spec. lia.
Qed.

Lemma pow2_log2_up_least n k : n <= 2 ^ k -> 2 ^ Nat.log2_up n <= 2 ^ k.
Proof.
  intros H. apply Nat.pow_le_mono_r; [lia|].
  destruct (Nat.le_gt_cases n 1) as [Hn|Hn].
  - rewrite Nat.log2_up_eqn0 by exact Hn. lia.
  - apply Nat.log2_up_le_pow2; lia.
Qed.

Lemma log2_up_pow2_exact k : Nat.log2_up (2 ^ k) = k.
Proof. apply Nat.log2_up_pow2. lia. Qed.

Lemma scipy_hadamard_pow2 k : scipy_hadamard (2 ^ k) = Ok (sylvester k).
Proof.
  unfold scipy_hadamard.
  assert (0 < 2 ^ k) by (apply Nat.neq_0_lt_0, Nat.pow_nonzero; lia).
  replace (2 ^ k <? 1) with false by (symmetry; apply Nat.ltb_ge; lia).
  rewrite Nat.log2_pow2 by lia. now rewrite Nat.eqb_refl.
Qed.

Ltac step L :=
  apply triple_bind; eapply triple_conseq;
  [ eapply L; eauto
  | cbv beta
  | unfold no_exn; tauto ].

Section Reference.

Variable reshape_is_view : Tensor -> list nat -> bool.

Lemma hadamard_transform_ref_run h x s d dim scale :
  holds h x s d ->
  length d = numel s ->
  shape_last s = Ok dim ->
  0 < dim ->
  triple (hadamard_transform_ref reshape_is_view (Some scipy_hadamard) x scale) h
    (fun t h' =>
       extends h h' /\ length h <= storage t /\
       holds h' t s (ref_data s dim scale d))
    no_exn.
Proof.
  intros Hx Hd Hl Hdim. unfold hadamard_transform_ref.
  pose proof Hx as (Hxs & Hxsh & Hxc).
  set (rc := row_count s).
  set (k := Nat.log2_up dim). set (N := 2 ^ k).
  assert (Hnum : numel s = rc * dim) by (now apply numel_last).
  assert (HN : dim <= N) by apply pow2_log2_up_ge.
  apply triple_bind. rewrite Hxsh. eapply triple_lift_ok; [exact Hl|].
  step reshape_spec.
  { rewrite Hnum. now apply infer_size_rows. }
  intros x1 h1 (He1 & Hx1 & _).
  apply triple_bind. eapply triple_lift_ok.
  { unfold ceil_log2.
    replace (dim =? 0) with false by (symmetry; apply Nat.eqb_neq; lia).
    reflexivity. }
  fold k. fold N.
  set (padrows := map (fun r => r ++ repeat 0%Z (N - dim)) (rows rc dim d)).
  assert (Hpad : Forall (fun r => length r = N) padrows).
  { subst padrows. apply Forall_map.
    eapply Forall_impl; [|apply rows_Forall_length; lia].
    simpl. intros r Hr. rewrite length_app, repeat_length, Hr. lia. }
  assert (Hpadlen : length padrows = rc).
  { subst padrows. now rewrite length_map, rows_length. }
  apply triple_bind.
  apply triple_conseq with
    (Q := fun x2 h2 => extends h1 h2 /\ holds h2 x2 [rc; N] (concat padrows))
    (E := no_exn); [| | auto].
  { destruct (dim =? N) eqn:HdN; simpl.
    - apply Nat.eqb_eq in HdN. apply triple_ret. split; [auto with heap|].
      subst padrows. rewrite <- HdN, Nat.sub_diag. simpl repeat.
      rewrite map_ext with (g := fun r => r) by (intros; apply app_nil_r).
      rewrite map_id, concat_rows by lia. exact Hx1.
    - eapply triple_conseq; [eapply pad_spec; [exact Hx1|reflexivity] | | auto].
      cbv beta. intros x2 h2 (He2 & Hx2). split; [exact He2|].
      unfold set_last, row_count in Hx2. simpl in Hx2.
      rewrite Nat.mul_1_r in Hx2.
      replace (dim + (N - dim)) with N in Hx2 by lia. exact Hx2. }
  intros x2 h2 (He2 & Hx2).
  apply triple_bind. eapply triple_lift_ok; [apply scipy_hadamard_pow2|].
  step torch_tensor_spec.
  intros W h3 (He3 & HW).
  rewrite sylvester_length in HW.
  assert (Hhd : length (hd [] (sylvester k)) = N).
  { pose proof (sylvester_row_length k) as HF.
    pose proof (sylvester_length k) as HL.
    destruct (sylvester k) as [|r0 rest]; simpl in *.
    - assert (0 < 2 ^ k) by (apply Nat.neq_0_lt_0, Nat.pow_nonzero; lia). lia.
    - now inversion HF. }
  rewrite Hhd in HW. fold N in HW.
  step linear_spec.
  { eapply holds_extends; eassumption. }
  { reflexivity. }
  intros out h4 (He4 & Hout).
  unfold set_last, row_count in Hout. simpl in Hout.
  rewrite Nat.mul_1_r in Hout.
  assert (HHlen := sylvester_length k). fold N in HHlen.
  assert (HHrow := sylvester_row_length k). fold N in HHrow.
  rewrite (rows_concat_eq HHlen HHrow) in Hout.
  rewrite (rows_concat_eq Hpadlen Hpad) in Hout.
  step mul_scalar_spec.
  intros out2 h5 (He5 & Hs5 & Hout2).
  step slice_last_spec.
  { reflexivity. }
  intros out3 h6 (-> & Hs6 & Hout3).
  unfold set_last, row_count in Hout3. simpl in Hout3.
  rewrite Nat.mul_1_r, Nat.min_l in Hout3 by exact HN.
  rewrite concat_map, rows_concat_eq, !map_map in Hout3; cycle 1.
  { now rewrite !length_map. }
  { apply Forall_map, Forall_map, Forall_forall. intros r _.
    now rewrite length_map, matvec_length. }
  assert (He : extends h h5) by eauto with heap.
  eapply triple_conseq;
    [ eapply reshape_spec with (s' := s); [exact Hout3|] | cbv beta | auto ].
  { replace (numel [rc; dim]) with (numel s)
      by (rewrite Hnum; simpl; lia).
    apply infer_size_exact. }
  intros t h' (He' & Ht & Hst). split; [eauto with heap|]. split.
  - pose proof (extends_length He). pose proof (extends_length He4).
    pose proof (extends_length He3). pose proof (extends_length He2).
    pose proof (extends_length He1). pose proof (extends_length He5).
    destruct Hst as [Hst|Hst]; lia.
  - unfold ref_data, ref_row. fold rc k N.
    subst padrows. rewrite map_map in Ht. exact Ht.
Qed.

End Reference.

Lemma triple_no_exn_inv {A} (m : M A) h (Q : A -> Heap -> Prop) :
  triple m h Q no_exn -> exists a h', m h = (Ok a, h') /\ Q a h'.
Proof.
  unfold triple, no_exn. destruct (m h) as [[a|e] h']; [eauto|tauto].
Qed.

Lemma contents_length h t : length (contents h t) = length (layout t).
Proof. apply length_map. Qed.

Lemma load_module_with_scipy : load_module true = Ok (Some scipy_hadamard).
Proof. reflexivity. Qed.

Lemma load_module_without_scipy : load_module false = Ok None.
Proof. reflexivity. Qed.

(** ** The reference implementation: what it returns *)

(** C3: on a tensor whose last dimension [dim] is positive,
    [hadamard_transform_ref] returns a tensor of the input's shape whose rows
    are the input's rows, each zero-padded to [dim_padded], multiplied by the
    dense Hadamard matrix of order [dim_padded], scaled, and cut back to the
    first [dim] elements; [dim_padded] is the least power of two that is at
    least [dim], so a row whose length is a power of two is not padded. *)
Theorem C3_ref_pads_multiplies_scales_truncates
  (reshape_is_view : Tensor -> list nat -> bool)
  (h : Heap) (x : Tensor) (dim : nat) (scale : Z) :
  storage x < length h ->
  length (layout x) = numel (shape x) ->
  shape_last (shape x) = Ok dim ->
  0 < dim ->
  let log_dim := Nat.log2_up dim in
  let dim_padded := 2 ^ log_dim in
  (dim <= dim_padded /\
   (forall k, dim <= 2 ^ k -> dim_padded <= 2 ^ k) /\
   ((exists k, dim = 2 ^ k) -> dim_padded - dim = 0)) /\
  exists H t h',
    scipy_hadamard dim_padded = Ok H /\
    length H = dim_padded /\
    Forall (fun r => length r = dim_padded) H /\
    hadamard_transform_ref reshape_is_view (Some scipy_hadamard) x scale h
      = (Ok t, h') /\
    shape t = shape x /\
    contents h' t =
      concat
        (map (fun row =>
                firstn dim
                  (map (fun v => (v * scale)%Z)
                     (matvec H (row ++ repeat 0%Z (dim_padded - dim)))))
           (rows (row_count (shape x)) dim (contents h x))).
Proof.
  intros Hs Hlen Hl Hdim log_dim dim_padded. split.
  - split; [apply pow2_log2_up_ge|]. split; [apply pow2_log2_up_least|].
    intros [k ->]. subst dim_padded log_dim.
    rewrite log2_up_pow2_exact. lia.
  - exists (sylvester log_dim).
    pose proof (hadamard_transform_ref_run reshape_is_view scale
                  (conj Hs (conj eq_refl eq_refl))
                  (eq_trans (contents_length h x) Hlen) Hl Hdim) as Hrun.
    apply triple_no_exn_inv in Hrun.
    destruct Hrun as (t & h' & Hrun & _ & _ & _ & Hsh & Hc).
    exists t, h'. repeat split; auto.
    + apply scipy_hadamard_pow2.
    + apply sylvester_length.
    + apply sylvester_row_length.
Qed.

Lemma C3_witness :
  exists t h',
    hadamard_transform_ref (fun _ _ => true) (Some scipy_hadamard) C3_x 1 C3_heap
      = (Ok t, h') /\
    shape t = [2; 3] /\ contents h' t = [6; 2; 0; 15; 5; 3]%Z.
Proof.
  destruct (@C3_ref_pads_multiplies_scales_truncates
              (fun _ _ => true) C3_heap C3_x 3 1)
    as (_ & H & t & h' & HH & _ & _ & Hrun & Hsh & Hc);
    [ simpl; lia | reflexivity | reflexivity | lia | ].
  exists t, h'. split; [exact Hrun|]. split; [exact Hsh|].
  rewrite Hc. vm_compute in HH. injection HH as <-. reflexivity.
Defined.

Lemma ref_row_dim_one scale a : ref_row 1 scale [a] = [(scale * a)%Z].
Proof.
  unfold ref_row. change (Nat.log2_up 1) with 0. change (2 ^ 0 - 1) with 0.
  cbn [repeat app]. rewrite sylvester_0_matvec. cbn [map firstn].
  f_equal. lia.
Qed.

Lemma ref_data_dim_one s scale d :
  length d = row_count s -> ref_data s 1 scale d = vscale scale d.
Proof.
  unfold ref_data. generalize (row_count s) as rc.
  intros rc; revert d; induction rc as [|rc IH]; intros [|a d] H;
    try discriminate H; try reflexivity.
  injection H as H. cbn [rows firstn skipn map concat].
  rewrite ref_row_dim_one, IH by exact H. reflexivity.
Qed.

(** C10: on a tensor whose last dimension is 1, [hadamard_transform_ref]
    returns [scale * x]: the padded length is 1, nothing is padded, and the
    Hadamard matrix of order 1 is the identity. *)
Theorem C10_ref_last_dim_one
  (reshape_is_view : Tensor -> list nat -> bool)
  (h : Heap) (x : Tensor) (scale : Z) :
  storage x < length h ->
  length (layout x) = numel (shape x) ->
  shape_last (shape x) = Ok 1 ->
  2 ^ Nat.log2_up 1 = 1 /\
  scipy_hadamard 1 = Ok [[1%Z]] /\
  (forall a, matvec [[1%Z]] [a] = [a]) /\
  exists t h',
    hadamard_transform_ref reshape_is_view (Some scipy_hadamard) x scale h
      = (Ok t, h') /\
    shape t = shape x /\
    contents h' t = vscale scale (contents h x).
Proof.
  intros Hs Hlen Hl. split; [reflexivity|]. split; [reflexivity|].
  split; [exact sylvester_0_matvec|].
  pose proof (hadamard_transform_ref_run reshape_is_view scale
                (conj Hs (conj eq_refl eq_refl))
                (eq_trans (contents_length h x) Hlen) Hl Nat.lt_0_1) as Hrun.
  apply triple_no_exn_inv in Hrun.
  destruct Hrun as (t & h' & Hrun & _ & _ & _ & Hsh & Hc).
  exists t, h'. repeat split; auto.
  rewrite Hc. apply ref_data_dim_one.
  rewrite contents_length, Hlen, (numel_last _ Hl). lia.
Qed.

Lemma C10_witness :
  exists t h',
    hadamard_transform_ref (fun _ _ => false) (Some scipy_hadamard) C10_x 2
      C10_heap = (Ok t, h') /\
    shape t = [3; 1] /\ contents h' t = [10; -14; 22]%Z.
Proof.
  destruct (@C10_ref_last_dim_one (fun _ _ => false) C10_heap C10_x 2)
    as (_ & _ & _ & t & h' & Hrun & Hsh & Hc);
    [ simpl; lia | reflexivity | reflexivity | ].
  exists t, h'. split; [exact Hrun|]. split; [exact Hsh|].
  rewrite Hc. reflexivity.
Defined.

(** ** The reference implementation: failures *)

(** C6: loading the module without scipy succeeds and leaves the global
    [hadamard] at [None]; every later call of [hadamard_transform_ref] then
    raises [ImportError], whatever the input, before touching the heap. *)
Theorem C6_ref_missing_scipy
  (reshape_is_view : Tensor -> list nat -> bool) :
  exists hadamard,
    load_module false = Ok hadamard /\
    forall (x : Tensor) (scale : Z) (h : Heap),
      hadamard_transform_ref reshape_is_view hadamard x scale h
      = (Raise (ImportError "Please install scipy"), h).
Proof. exists None. split; reflexivity. Qed.

Lemma ref_zero_dim_raises rv hadamard x scale h :
  shape_last (shape x) = Ok 0 ->
  hadamard_transform_ref rv (Some hadamard) x scale h = (Raise RuntimeError, h).
Proof.
  intros Hl. unfold hadamard_transform_ref, bind, lift, reshape.
  rewrite Hl. unfold bind, lift. rewrite infer_size_zero_row. reflexivity.
Qed.

(** C7: when scipy's [hadamard] is available, a call on a tensor
    whose last dimension is 0 raises the [RuntimeError] of the reshape to
    [(-1, 0)], with no tensor allocated; when it is not available the same
    call raises [ImportError] instead. *)
Theorem C7_ref_empty_row_raises
  (reshape_is_view : Tensor -> list nat -> bool)
  (hadamard : option (nat -> Result Matrix))
  (x : Tensor) (scale : Z) (h : Heap) :
  shape_last (shape x) = Ok 0 ->
  hadamard_transform_ref reshape_is_view hadamard x scale h =
    (Raise (match hadamard with
            | Some _ => RuntimeError
            | None => ImportError "Please install scipy"
            end), h).
Proof.
  intros Hl. destruct hadamard as [f|].
  - now apply ref_zero_dim_raises.
  - reflexivity.
Qed.

Lemma C7_witness :
  hadamard_transform_ref (fun _ _ => true) (Some scipy_hadamard) C7_x 1 [[]]
  = (Raise RuntimeError, [[]]).
Proof.
  apply (@C7_ref_empty_row_raises (fun _ _ => true) (Some scipy_hadamard)
           C7_x 1 [[]]).
  reflexivity.
Defined.

(** The size failure is not what every call on an empty row raises: without
    scipy the call raises [ImportError]. *)
Lemma C7_counterexample :
  shape_last (shape C7_x) = Ok 0 /\
  hadamard_transform_ref (fun _ _ => true) None C7_x 1 [[]]
  = (Raise (ImportError "Please install scipy"), [[]]) /\
  ImportError "Please install scipy" <> RuntimeError.
Proof. repeat split. discriminate. Qed.

(** ** The reference implementation only allocates *)

Ltac frame_op :=
  unfold triple, allocated, unchanged, bind, lift, get_heap, new_tensor,
    alloc, ret, raise; simpl.

Section Frame.

Variable reshape_is_view : Tensor -> list nat -> bool.

Lemma reshape_frame t sz h :
  triple (reshape reshape_is_view t sz) h
    (fun t' h' => (h' = h /\ storage t' = storage t) \/ allocated h t' h')
    (unchanged h).
Proof.
  unfold reshape. frame_op.
  destruct (infer_size sz (numel (shape t))) as [s'|e]; [|reflexivity].
  destruct (reshape_is_view t s'); simpl; eauto.
Qed.

Lemma pad_frame t p h :
  triple (pad t p) h (fun t' h' => allocated h t' h') (unchanged h).
Proof.
  unfold pad. frame_op.
  destruct (shape_last (shape t)); simpl; eauto.
Qed.

Lemma torch_tensor_frame H h :
  triple (torch_tensor H) h (fun t' h' => allocated h t' h') (unchanged h).
Proof. unfold torch_tensor. frame_op. eauto. Qed.

Lemma linear_frame t W h :
  triple (linear t W) h (fun t' h' => allocated h t' h') (unchanged h).
Proof.
  unfold linear. frame_op.
  destruct (shape_last (shape t)) as [d|e]; [|reflexivity].
  destruct (shape W) as [|m [|k [|? ?]]]; try reflexivity.
  destruct (d =? k); simpl; eauto.
Qed.

Lemma mul_scalar_frame t scale h :
  triple (mul_scalar t scale) h (fun t' h' => allocated h t' h') (unchanged h).
Proof. unfold mul_scalar. frame_op. eauto. Qed.

Lemma slice_last_frame t n h :
  triple (slice_last t n) h
    (fun t' h' => h' = h /\ storage t' = storage t) (unchanged h).
Proof.
  unfold slice_last. frame_op.
  destruct (shape_last (shape t)); simpl; eauto.
Qed.

Lemma triple_lift {A} (r : Result A) h (Q : A -> Heap -> Prop) E :
  (forall a, r = Ok a -> Q a h) ->
  (forall e, r = Raise e -> E e h) ->
  triple (lift r) h Q E.
Proof. unfold triple, lift. destruct r; auto. Qed.

Lemma allocated_extends h t h' : allocated h t h' -> extends h h'.
Proof. intros (d & -> & _). auto with heap. Qed.

Lemma allocated_fresh h t h' :
  allocated h t h' -> length h <= storage t < length h'.
Proof. intros (d & -> & ->). rewrite length_app. simpl. lia. Qed.

Ltac fstep L h0 :=
  apply triple_bind; eapply triple_conseq;
  [ apply L
  | cbv beta
  | unfold unchanged; intros ? ? ->; assumption ].

Lemma hadamard_transform_ref_frame hadamard x scale h :
  triple (hadamard_transform_ref reshape_is_view hadamard x scale) h
    (fun t h' => extends h h' /\ length h <= storage t < length h')
    (fun _ h' => extends h h').
Proof.
  unfold hadamard_transform_ref. destruct hadamard as [f|];
    [|apply extends_refl].
  assert (He0 : extends h h) by apply extends_refl.
  apply triple_bind, triple_lift; [intros dim _|intros; assumption].
  fstep reshape_frame h.
  intros x1 h1 Hx1.
  assert (He1 : extends h h1).
  { destruct Hx1 as [[-> _]|Ha]; [assumption|].
    eauto using allocated_extends with heap. }
  clear Hx1 He0.
  apply triple_bind, triple_lift; [intros log_dim _|intros; assumption].
  apply triple_bind.
  apply triple_conseq with (Q := fun (_ : Tensor) h2 => extends h h2)
                           (E := fun _ h2 => extends h h2); [|auto|auto].
  { destruct (negb (dim =? 2 ^ log_dim)).
    - eapply triple_conseq; [apply pad_frame| |].
      + cbv beta. intros ? ? Ha. eauto using allocated_extends with heap.
      + unfold unchanged. intros ? ? ->. assumption.
    - apply triple_ret. assumption. }
  intros x2 h2 He2. clear He1 h1.
  apply triple_bind, triple_lift; [intros H _|intros; assumption].
  fstep torch_tensor_frame h.
  intros W h3 HW.
  assert (He3 : extends h h3) by eauto using allocated_extends with heap.
  clear HW He2 h2.
  fstep linear_frame h.
  intros out h4 Hout.
  assert (He4 : extends h h4) by eauto using allocated_extends with heap.
  clear Hout He3 h3.
  fstep mul_scalar_frame h.
  intros out2 h5 Hout2.
  assert (He5 : extends h h5) by eauto using allocated_extends with heap.
  pose proof (allocated_fresh Hout2) as Hf5.
  pose proof (extends_length He4) as Hl4.
  clear Hout2.
  fstep slice_last_frame h.
  intros out3 h6 (-> & Hs6).
  eapply triple_conseq; [apply reshape_frame| |].
  - cbv beta. intros t h' [[-> Hst]|Ha].
    + split; [assumption|]. lia.
    + split; [eauto using allocated_extends with heap|].
      pose proof (allocated_fresh Ha). pose proof (extends_length He5). lia.
  - unfold unchanged. intros ? ? ->. assumption.
Qed.

End Frame.

Lemma hadamard_transform_ref_fresh rv hadamard x scale h :
  fresh_result (hadamard_transform_ref rv hadamard x scale) h.
Proof.
  pose proof (hadamard_transform_ref_frame rv hadamard x scale h) as H.
  unfold triple in H. unfold fresh_result.
  destruct (hadamard_transform_ref rv hadamard x scale h) as [[t|e] h'].
  - destruct H as [He Hf]. split; [now apply extends_firstn|exact Hf].
  - split; [now apply extends_firstn|exact I].
Qed.

Lemma apply_generic_forward kernel x scale inplace h :
  apply (generic_forward kernel) x scale inplace h =
  match kernel x scale inplace h with
  | (Ok out, h') => (Ok out, h')
  | (Raise e, h') => (Raise e, h')
  end.
Proof.
  unfold apply, generic_forward, bind, ret.
  destruct (kernel x scale inplace h) as [[out|e] h']; reflexivity.
Qed.

Lemma fresh_result_contents (m : M Tensor) h x :
  fresh_result m h -> storage x < length h ->
  let '(r, h') := m h in
  contents h' x = contents h x /\
  match r with
  | Ok t => storage t <> storage x
  | Raise _ => True
  end.
Proof.
  unfold fresh_result. destruct (m h) as [r h']. intros [Hf Hr] Hs. split.
  - unfold contents, read. apply map_ext. intros o. f_equal.
    rewrite <- (firstn_skipn (length h) h'), Hf.
    now apply app_nth1.
  - destruct r; [lia|exact I].
Qed.

(** C8: [hadamard_transform_ref] leaves every storage that existed before
    the call as it was, so the input keeps its contents, and the tensor it
    returns lives in a storage allocated during the call, which is not the
    input's.  The five wrappers add no write of their own: called without
    [inplace], each is as its kernel is. *)
Theorem C8_out_of_place_leaves_input
  (reshape_is_view : Tensor -> list nat -> bool)
  (hadamard : option (nat -> Result Matrix))
  (cuda : CudaModule) (x : Tensor) (scale : Z) (h : Heap) :
  storage x < length h ->
  (let '(r, h') :=
     hadamard_transform_ref reshape_is_view hadamard x scale h in
   firstn (length h) h' = h /\
   contents h' x = contents h x /\
   match r with
   | Ok t => storage t <> storage x /\ length h <= storage t < length h'
   | Raise _ => True
   end) /\
  (fresh_result (fast_hadamard_transform cuda x scale false) h ->
   fresh_result (hadamard_transform cuda x scale false) h) /\
  (fresh_result (fast_hadamard_transform_12N cuda x scale false) h ->
   fresh_result (hadamard_transform_12N cuda x scale false) h) /\
  (fresh_result (fast_hadamard_transform_20N cuda x scale false) h ->
   fresh_result (hadamard_transform_20N cuda x scale false) h) /\
  (fresh_result (fast_hadamard_transform_28N cuda x scale false) h ->
   fresh_result (hadamard_transform_28N cuda x scale false) h) /\
  (fresh_result (fast_hadamard_transform_40N cuda x scale false) h ->
   fresh_result (hadamard_transform_40N cuda x scale false) h).
Proof.
  intros Hs. split.
  - pose proof (hadamard_transform_ref_fresh reshape_is_view hadamard x scale h)
      as Hf.
    pose proof (fresh_result_contents _ _ x Hf Hs) as Hc.
    unfold fresh_result in Hf.
    destruct (hadamard_transform_ref reshape_is_view hadamard x scale h)
      as [[t|e] h']; tauto.
  - repeat split; unfold fresh_result;
      [ change (hadamard_transform cuda x scale false h)
          with (apply (generic_forward (fast_hadamard_transform cuda))
                  x scale false h)
      | change (hadamard_transform_12N cuda x scale false h)
          with (apply (generic_forward (fast_hadamard_transform_12N cuda))
                  x scale false h)
      | change (hadamard_transform_20N cuda x scale false h)
          with (apply (generic_forward (fast_hadamard_transform_20N cuda))
                  x scale false h)
      | change (hadamard_transform_28N cuda x scale false h)
          with (apply (generic_forward (fast_hadamard_transform_28N cuda))
                  x scale false h)
      | change (hadamard_transform_40N cuda x scale false h)
          with (apply (generic_forward (fast_hadamard_transform_40N cuda))
                  x scale false h) ];
      rewrite apply_generic_forward;
      match goal with
      | |- context [?k cuda x scale false h] =>
          destruct (k cuda x scale false h) as [[out|e] h']
      end; auto.
Qed.

(** ** The autograd functions *)

(** C9: each of the five autograd functions is the one generic function
    taken at its kernel: the same forward, the same backward and the same
    tuple of gradients, and each public wrapper is [apply] of it. *)
Theorem C9_wrappers_are_one_generic_function (cuda : CudaModule) :
  (HadamardTransformFn.forward cuda
     = generic_forward (fast_hadamard_transform cuda) /\
   HadamardTransformFn.backward cuda
     = generic_backward (fast_hadamard_transform cuda) /\
   hadamard_transform cuda
     = apply (generic_forward (fast_hadamard_transform cuda))) /\
  (HadamardTransform12NFn.forward cuda
     = generic_forward (fast_hadamard_transform_12N cuda) /\
   HadamardTransform12NFn.backward cuda
     = generic_backward (fast_hadamard_transform_12N cuda) /\
   hadamard_transform_12N cuda
     = apply (generic_forward (fast_hadamard_transform_12N cuda))) /\
  (HadamardTransform20NFn.forward cuda
     = generic_forward (fast_hadamard_transform_20N cuda) /\
   HadamardTransform20NFn.backward cuda
     = generic_backward (fast_hadamard_transform_20N cuda) /\
   hadamard_transform_20N cuda
     = apply (generic_forward (fast_hadamard_transform_20N cuda))) /\
  (HadamardTransform28NFn.forward cuda
     = generic_forward (fast_hadamard_transform_28N cuda) /\
   HadamardTransform28NFn.backward cuda
     = generic_backward (fast_hadamard_transform_28N cuda) /\
   hadamard_transform_28N cuda
     = apply (generic_forward (fast_hadamard_transform_28N cuda))) /\
  (HadamardTransform40NFn.forward cuda
     = generic_forward (fast_hadamard_transform_40N cuda) /\
   HadamardTransform40NFn.backward cuda
     = generic_backward (fast_hadamard_transform_40N cuda) /\
   hadamard_transform_40N cuda
     = apply (generic_forward (fast_hadamard_transform_40N cuda))).
Proof. repeat split. Qed.

Lemma generic_backward_saved kernel scale inplace g h :
  generic_backward kernel (mkCtx (Some scale) (Some inplace)) g h =
  match kernel g scale inplace h with
  | (Ok dx, h') => (Ok [Some dx; None], h')
  | (Raise e, h') => (Raise e, h')
  end.
Proof. reflexivity. Qed.

Lemma generic_forward_saves kernel ctx x scale inplace h :
  generic_forward kernel ctx x scale inplace h =
  match kernel x scale inplace h with
  | (Ok out, h') => (Ok (mkCtx (Some scale) (Some inplace), out), h')
  | (Raise e, h') => (Raise e, h')
  end.
Proof. reflexivity. Qed.

Lemma generic_backward_two_slots kernel inputs scale inplace g h :
  length inputs = 3 ->
  backward_two_slots (generic_backward kernel) kernel inputs scale inplace g h.
Proof.
  intros Hi. unfold backward_two_slots. rewrite generic_backward_saved.
  destruct (kernel g scale inplace h) as [[dx|e] h']; eauto.
Qed.

(** C1: [forward] saves its scale and flag in the context, and
    with them [backward] runs the forward kernel on the incoming gradient;
    the tuple it returns has two entries, the transformed gradient and one
    [None], although [forward] has three inputs. *)
Theorem C1_backward_returns_two_slots
  (cuda : CudaModule) (ctx0 : Ctx) (x g : Tensor) (scale : Z) (inplace : bool)
  (h : Heap) :
  (let '(r, h1) := HadamardTransformFn.forward cuda ctx0 x scale inplace h in
   match r with
   | Ok (ctx, _) => ctx = mkCtx (Some scale) (Some inplace)
   | Raise _ => True
   end) /\
  backward_two_slots (HadamardTransformFn.backward cuda)
    (fast_hadamard_transform cuda) HadamardTransformFn.forward_inputs
    scale inplace g h /\
  backward_two_slots (HadamardTransform12NFn.backward cuda)
    (fast_hadamard_transform_12N cuda) HadamardTransform12NFn.forward_inputs
    scale inplace g h /\
  backward_two_slots (HadamardTransform20NFn.backward cuda)
    (fast_hadamard_transform_20N cuda) HadamardTransform20NFn.forward_inputs
    scale inplace g h /\
  backward_two_slots (HadamardTransform28NFn.backward cuda)
    (fast_hadamard_transform_28N cuda) HadamardTransform28NFn.forward_inputs
    scale inplace g h /\
  backward_two_slots (HadamardTransform40NFn.backward cuda)
    (fast_hadamard_transform_40N cuda) HadamardTransform40NFn.forward_inputs
    scale inplace g h.
Proof.
  split.
  - change (HadamardTransformFn.forward cuda ctx0 x scale inplace h)
      with (generic_forward (fast_hadamard_transform cuda) ctx0 x scale
              inplace h).
    rewrite generic_forward_saves.
    destruct (fast_hadamard_transform cuda x scale inplace h) as [[out|e] h'];
      auto.
  - repeat split; now apply generic_backward_two_slots.
Qed.

(** ** Involution and linearity of the reference transform *)

Lemma ref_row_length dim scale r : length (ref_row dim scale r) = dim.
Proof.
  unfold ref_row. rewrite firstn_length_le; [reflexivity|].
  rewrite length_map, matvec_length, sylvester_length.
  apply pow2_log2_up_ge.
Qed.

Lemma ref_data_length s dim scale d :
  length (ref_data s dim scale d) = row_count s * dim.
Proof.
  unfold ref_data. rewrite length_concat_const with (n := dim).
  - now rewrite length_map, rows_length.
  - apply Forall_map, Forall_forall. intros r _. apply ref_row_length.
Qed.

Lemma ref_data_twice s dim scale d :
  ref_data s dim scale (ref_data s dim scale d) =
  concat (map (fun r => ref_row dim scale (ref_row dim scale r))
            (rows (row_count s) dim d)).
Proof.
  unfold ref_data at 1 2. rewrite rows_concat_eq, map_map; [reflexivity| |].
  - now rewrite length_map, rows_length.
  - apply Forall_map, Forall_forall. intros r _. apply ref_row_length.
Qed.

Lemma ref_row_pow2 k scale r :
  length r = 2 ^ k ->
  ref_row (2 ^ k) scale r =
  map (fun v => (v * scale)%Z) (matvec (sylvester k) r).
Proof.
  intros Hr. unfold ref_row. rewrite log2_up_pow2_exact, Nat.sub_diag.
  cbn [repeat]. rewrite app_nil_r. apply firstn_all2.
  rewrite length_map, matvec_length, sylvester_length. lia.
Qed.

Lemma ref_row_pow2_involution k r :
  length r = 2 ^ k ->
  ref_row (2 ^ k) 1 (ref_row (2 ^ k) 1 r) = vscale (Z.of_nat (2 ^ k)) r.
Proof.
  intros Hr.
  assert (Hid : forall l, map (fun v => (v * 1)%Z) l = l).
  { intros l. rewrite <- (map_id l) at 2. apply map_ext. intros; lia. }
  rewrite (@ref_row_pow2 k 1 r Hr), Hid.
  rewrite ref_row_pow2 by (now rewrite matvec_length, sylvester_length).
  rewrite Hid. now apply sylvester_involution.
Qed.

Lemma ref_data_pow2_involution s k d :
  length d = row_count s * 2 ^ k ->
  ref_data s (2 ^ k) 1 (ref_data s (2 ^ k) 1 d) = vscale (Z.of_nat (2 ^ k)) d.
Proof.
  intros Hd. rewrite ref_data_twice.
  rewrite map_ext_in with (g := vscale (Z.of_nat (2 ^ k))).
  - unfold vscale. rewrite <- concat_map. now rewrite concat_rows.
  - intros r Hin. apply ref_row_pow2_involution.
    pose proof (@rows_Forall_length _ _ _ _ Hd) as HF.
    rewrite Forall_forall in HF. now apply HF.
Qed.

Section Twice.

Variable reshape_is_view : Tensor -> list nat -> bool.

Lemma transform_twice_run h x s d dim scale :
  holds h x s d ->
  length d = numel s ->
  shape_last s = Ok dim ->
  0 < dim ->
  triple (transform_twice reshape_is_view (Some scipy_hadamard) x scale) h
    (fun t h' =>
       holds h' t s (ref_data s dim scale (ref_data s dim scale d)))
    no_exn.
Proof.
  intros Hx Hd Hl Hdim. unfold transform_twice.
  apply triple_bind. eapply triple_conseq;
    [ now apply hadamard_transform_ref_run with (s := s) (d := d) (dim := dim)
    | cbv beta | auto ].
  intros y h1 (_ & _ & Hy).
  eapply triple_conseq;
    [ apply hadamard_transform_ref_run with (s := s) (dim := dim);
      [exact Hy| |exact Hl|exact Hdim]
    | cbv beta | auto ].
  - rewrite ref_data_length. symmetry. now apply numel_last.
  - intros t h' (_ & _ & Ht). exact Ht.
Qed.

End Twice.

(** C4: on rows whose length is a power of two, the reference
    transform with scale 1 applied twice returns the input multiplied by the
    row length. *)
Theorem C4_ref_twice_on_power_of_two
  (reshape_is_view : Tensor -> list nat -> bool)
  (h : Heap) (x : Tensor) (k : nat) :
  storage x < length h ->
  length (layout x) = numel (shape x) ->
  shape_last (shape x) = Ok (2 ^ k) ->
  2 ^ Nat.log2_up (2 ^ k) = 2 ^ k /\
  run_contents (transform_twice reshape_is_view (Some scipy_hadamard) x 1) h
  = Ok (vscale (Z.of_nat (2 ^ k)) (contents h x)).
Proof.
  intros Hs Hlen Hl. split; [now rewrite log2_up_pow2_exact|].
  assert (Hpos : 0 < 2 ^ k) by (apply Nat.neq_0_lt_0, Nat.pow_nonzero; lia).
  pose proof (transform_twice_run reshape_is_view 1
                (conj Hs (conj eq_refl eq_refl))
                (eq_trans (contents_length h x) Hlen) Hl Hpos) as Hrun.
  apply triple_no_exn_inv in Hrun.
  destruct Hrun as (t & h' & Hrun & _ & _ & Hc).
  unfold run_contents. rewrite Hrun, Hc. f_equal.
  apply ref_data_pow2_involution.
  rewrite contents_length, Hlen. now apply numel_last.
Qed.

Lemma C4_witness :
  run_contents
    (transform_twice (fun _ _ => true) (Some scipy_hadamard) C4_x 1) C4_heap
  = Ok [4; 8; 12; 16]%Z.
Proof.
  destruct (@C4_ref_twice_on_power_of_two (fun _ _ => true) C4_heap C4_x 2)
    as [_ H]; [ simpl; lia | reflexivity | reflexivity | ].
  exact H.
Defined.

(** A row of length 3, padded to 4: the transform applied twice returns
    [3; 1; 1], not 4 times the row. *)
Lemma C4_counterexample :
  shape_last (shape C4_x3) = Ok 3 /\
  2 ^ Nat.log2_up 3 = 4 /\
  run_contents
    (transform_twice (fun _ _ => true) (Some scipy_hadamard) C4_x3 1) C4_heap3
  = Ok [3; 1; 1]%Z /\
  vscale (Z.of_nat (2 ^ Nat.log2_up 3)) (contents C4_heap3 C4_x3)
  = [4; 0; 0]%Z /\
  run_contents
    (transform_twice (fun _ _ => true) (Some scipy_hadamard) C4_x3 1) C4_heap3
  <> Ok (vscale (Z.of_nat (2 ^ Nat.log2_up 3)) (contents C4_heap3 C4_x3)).
Proof. repeat split. vm_compute. discriminate. Qed.

Lemma vlin_cons a x u b y v :
  vlin a (x :: u) b (y :: v) = (a * x + b * y)%Z :: vlin a u b v.
Proof. reflexivity. Qed.

Lemma vlin_nil_l a b v : vlin a [] b v = [].
Proof. reflexivity. Qed.

Lemma vlin_nil_r a u b : vlin a u b [] = [].
Proof. destruct u; reflexivity. Qed.

Lemma vlin_length a u b v :
  length u = length v -> length (vlin a u b v) = length u.
Proof.
  intros H. unfold vlin. rewrite vadd_length; rewrite !vscale_length; auto.
Qed.

Lemma vlin_app a u1 u2 b v1 v2 :
  length u1 = length v1 ->
  vlin a (u1 ++ u2) b (v1 ++ v2) = vlin a u1 b v1 ++ vlin a u2 b v2.
Proof.
  revert v1; induction u1 as [|x u1 IH]; intros [|y v1] H;
    try discriminate H; [reflexivity|].
  injection H as H. rewrite <- !app_comm_cons, !vlin_cons, IH by exact H.
  reflexivity.
Qed.

Lemma vlin_repeat_0 a b n :
  vlin a (repeat 0%Z n) b (repeat 0%Z n) = repeat 0%Z n.
Proof.
  induction n as [|n IH]; [reflexivity|].
  cbn [repeat]. rewrite vlin_cons, IH. f_equal. lia.
Qed.

Lemma firstn_vlin n a u b v :
  firstn n (vlin a u b v) = vlin a (firstn n u) b (firstn n v).
Proof.
  revert u v; induction n as [|n IH]; intros u v; [reflexivity|].
  destruct u as [|x u]; [reflexivity|].
  destruct v as [|y v]; [now rewrite firstn_nil, !vlin_nil_r|].
  rewrite vlin_cons, !firstn_cons, vlin_cons, IH. reflexivity.
Qed.

Lemma skipn_vlin n a u b v :
  skipn n (vlin a u b v) = vlin a (skipn n u) b (skipn n v).
Proof.
  revert u v; induction n as [|n IH]; intros u v; [reflexivity|].
  destruct u as [|x u]; [reflexivity|].
  destruct v as [|y v]; [now rewrite skipn_nil, !vlin_nil_r|].
  rewrite vlin_cons, !skipn_cons, IH. reflexivity.
Qed.

Lemma matvec_vlin W a u b v :
  length u = length v ->
  matvec W (vlin a u b v) = vlin a (matvec W u) b (matvec W v).
Proof.
  intros H. unfold vlin.
  rewrite matvec_vadd by (now rewrite !vscale_length).
  now rewrite !matvec_vscale.
Qed.

Lemma map_mul_vlin scale a u b v :
  map (fun x => (x * scale)%Z) (vlin a u b v) =
  vlin a (map (fun x => (x * scale)%Z) u) b (map (fun x => (x * scale)%Z) v).
Proof.
  revert v; induction u as [|x u IH]; intros [|y v]; try reflexivity.
  rewrite vlin_cons. cbn [map]. rewrite vlin_cons, IH. f_equal. lia.
Qed.

Lemma ref_row_vlin dim scale a u b v :
  length u = length v ->
  ref_row dim scale (vlin a u b v) =
  vlin a (ref_row dim scale u) b (ref_row dim scale v).
Proof.
  intros H. unfold ref_row.
  rewrite <- (vlin_repeat_0 a b (2 ^ Nat.log2_up dim - dim)) at 1.
  rewrite <- vlin_app by exact H.
  rewrite matvec_vlin by (rewrite !length_app; lia).
  now rewrite map_mul_vlin, firstn_vlin.
Qed.

Lemma ref_data_vlin s dim scale a du b dv :
  length du = length dv ->
  ref_data s dim scale (vlin a du b dv) =
  vlin a (ref_data s dim scale du) b (ref_data s dim scale dv).
Proof.
  unfold ref_data. generalize (row_count s) as rc.
  intros rc; revert du dv; induction rc as [|rc IH]; intros du dv H;
    [reflexivity|].
  cbn [rows map concat].
  rewrite firstn_vlin, skipn_vlin, IH by (rewrite !length_skipn; lia).
  rewrite ref_row_vlin by (rewrite !length_firstn; lia).
  rewrite vlin_app by (now rewrite !ref_row_length).
  reflexivity.
Qed.

Lemma hadamard_transform_ref_contents rv h x dim scale :
  well_formed h x ->
  shape_last (shape x) = Ok dim ->
  0 < dim ->
  run_contents (hadamard_transform_ref rv (Some scipy_hadamard) x scale) h
  = Ok (ref_data (shape x) dim scale (contents h x)).
Proof.
  intros [Hs Hlen] Hl Hdim.
  pose proof (hadamard_transform_ref_run rv scale
                (conj Hs (conj eq_refl eq_refl))
                (eq_trans (contents_length h x) Hlen) Hl Hdim) as Hrun.
  apply triple_no_exn_inv in Hrun.
  destruct Hrun as (t & h' & Hrun & _ & _ & _ & _ & Hc).
  unfold run_contents. now rewrite Hrun, Hc.
Qed.

(** C5: the reference transform is linear.  For tensors [x], [y] and [z] of
    one shape, [z] holding [a * x + b * y], the transform of [z] is [a] times
    the transform of [x] plus [b] times the transform of [y], at any
    scale. *)
Theorem C5_ref_linear
  (reshape_is_view : Tensor -> list nat -> bool)
  (h : Heap) (x y z : Tensor) (dim : nat) (a b scale : Z) :
  well_formed h x -> well_formed h y -> well_formed h z ->
  shape y = shape x -> shape z = shape x ->
  shape_last (shape x) = Ok dim ->
  0 < dim ->
  contents h z = vlin a (contents h x) b (contents h y) ->
  exists rx ry,
    run_contents
      (hadamard_transform_ref reshape_is_view (Some scipy_hadamard) x scale) h
      = Ok rx /\
    run_contents
      (hadamard_transform_ref reshape_is_view (Some scipy_hadamard) y scale) h
      = Ok ry /\
    run_contents
      (hadamard_transform_ref reshape_is_view (Some scipy_hadamard) z scale) h
      = Ok (vlin a rx b ry).
Proof.
  intros Hx Hy Hz Hsy Hsz Hl Hdim Hc.
  exists (ref_data (shape x) dim scale (contents h x)),
         (ref_data (shape x) dim scale (contents h y)).
  split; [now apply hadamard_transform_ref_contents|].
  split.
  - rewrite <- Hsy. apply hadamard_transform_ref_contents; auto.
    now rewrite Hsy.
  - rewrite <- ref_data_vlin, <- Hc, <- Hsz.
    + apply hadamard_transform_ref_contents; auto. now rewrite Hsz.
    + destruct Hx as [_ Hx], Hy as [_ Hy].
      rewrite !contents_length, Hx, Hy. now rewrite Hsy.
Qed.

Lemma C5_witness :
  exists rx ry,
    run_contents
      (hadamard_transform_ref (fun _ _ => true) (Some scipy_hadamard) C5_x 5)
      C5_heap = Ok rx /\
    run_contents
      (hadamard_transform_ref (fun _ _ => true) (Some scipy_hadamard) C5_y 5)
      C5_heap = Ok ry /\
    run_contents
      (hadamard_transform_ref (fun _ _ => true) (Some scipy_hadamard) C5_z 5)
      C5_heap = Ok (vlin 2 rx 3 ry).
Proof.
  apply (@C5_ref_linear (fun _ _ => true) C5_heap C5_x C5_y C5_z 3 2 3 5);
    try reflexivity; try (split; simpl; [lia|reflexivity]); lia.
Defined.

(** ** The butterfly computes the Sylvester product *)

Lemma rows_app {A} (n1 n2 m : nat) (u v : list A) :
  length u = n1 * m ->
  rows (n1 + n2) m (u ++ v) = rows n1 m u ++ rows n2 m v.
Proof.
  revert u; induction n1 as [|n1 IH]; intros u Hu.
  - destruct u; [reflexivity|discriminate Hu].
  - cbn [Nat.add rows app].
    rewrite firstn_app, skipn_app.
    replace (m - length u) with 0 by (simpl in Hu; lia).
    cbn [firstn skipn]. rewrite app_nil_r.
    rewrite IH by (rewrite length_skipn; simpl in Hu; lia).
    reflexivity.
Qed.

Lemma pow2_pos k : 0 < 2 ^ k.
Proof. apply Nat.neq_0_lt_0, Nat.pow_nonzero. lia. Qed.

Lemma butterfly_block_halves half u v :
  length u = half ->
  butterfly_block half (u ++ v) = vadd u v ++ vsub u v.
Proof.
  intros <-. unfold butterfly_block.
  rewrite firstn_app, skipn_app, Nat.sub_diag, firstn_all, skipn_all.
  cbn [firstn skipn app]. now rewrite app_nil_r.
Qed.

Lemma butterfly_block_length half blk :
  length blk = 2 * half -> length (butterfly_block half blk) = 2 * half.
Proof.
  intros H. unfold butterfly_block.
  rewrite length_app, vadd_length, vsub_length;
    rewrite ?length_firstn, ?length_skipn; lia.
Qed.

Lemma stage_length s c buf :
  length buf = c * 2 ^ S s -> length (stage s buf) = length buf.
Proof.
  intros H. unfold stage.
  rewrite H, Nat.div_mul by (pose proof (pow2_pos (S s)); lia).
  rewrite length_concat_const with (n := 2 ^ S s).
  - now rewrite length_map, rows_length.
  - apply Forall_map.
    eapply Forall_impl; [|apply rows_Forall_length; exact H].
    cbv beta. intros blk Hb. rewrite butterfly_block_length; simpl in *; lia.
Qed.

Lemma stage_app s c1 c2 u v :
  length u = c1 * 2 ^ S s ->
  length v = c2 * 2 ^ S s ->
  stage s (u ++ v) = stage s u ++ stage s v.
Proof.
  intros Hu Hv. unfold stage.
  assert (Hp := pow2_pos (S s)).
  rewrite length_app, Hu, Hv, <- Nat.mul_add_distr_r, !Nat.div_mul by lia.
  rewrite rows_app by exact Hu.
  now rewrite map_app, concat_app.
Qed.

Lemma pow2_split k s : s < k -> 2 ^ k = 2 ^ (k - S s) * 2 ^ S s.
Proof.
  intros H. rewrite <- Nat.pow_add_r. f_equal. lia.
Qed.

Lemma fold_stage_length k l u :
  Forall (fun s => s < k) l ->
  length u = 2 ^ k ->
  length (fold_left (fun b s => stage s b) l u) = 2 ^ k.
Proof.
  intros Hl; revert u; induction Hl as [|s l Hs _ IH]; intros u Hu;
    [exact Hu|].
  cbn [fold_left]. apply IH.
  rewrite (@stage_length s (2 ^ (k - S s))); [exact Hu|].
  rewrite Hu. now apply pow2_split.
Qed.

Lemma fold_stage_app k l u v :
  Forall (fun s => s < k) l ->
  length u = 2 ^ k ->
  length v = 2 ^ k ->
  fold_left (fun b s => stage s b) l (u ++ v) =
  fold_left (fun b s => stage s b) l u ++
  fold_left (fun b s => stage s b) l v.
Proof.
  intros Hl; revert u v; induction Hl as [|s l Hs _ IH]; intros u v Hu Hv;
    [reflexivity|].
  cbn [fold_left].
  assert (Hk := pow2_split Hs).
  rewrite (@stage_app s (2 ^ (k - S s)) (2 ^ (k - S s))) by congruence.
  apply IH; rewrite (@stage_length s (2 ^ (k - S s))); congruence.
Qed.

Lemma seq_below k : Forall (fun s => s < k) (seq 0 k).
Proof. apply Forall_forall. intros s Hs. apply in_seq in Hs. lia. Qed.

Lemma transform_pow2_length k buf :
  length buf = 2 ^ k -> length (transform_pow2 buf) = 2 ^ k.
Proof.
  intros H. unfold transform_pow2. rewrite H, Nat.log2_pow2 by lia.
  apply fold_stage_length; [apply seq_below|exact H].
Qed.

Lemma transform_pow2_succ k u v :
  length u = 2 ^ k ->
  length v = 2 ^ k ->
  transform_pow2 (u ++ v) =
  vadd (transform_pow2 u) (transform_pow2 v) ++
  vsub (transform_pow2 u) (transform_pow2 v).
Proof.
  intros Hu Hv.
  assert (Huv : length (u ++ v) = 2 ^ S k)
    by (rewrite length_app, Hu, Hv; simpl; lia).
  unfold transform_pow2 at 1. rewrite Huv, Nat.log2_pow2 by lia.
  rewrite seq_S, fold_left_app. cbn [fold_left Nat.add].
  rewrite (@fold_stage_app k (seq 0 k) u v (seq_below k) Hu Hv).
  fold (transform_pow2 u) in *.
  replace (fold_left (fun b s => stage s b) (seq 0 k) u)
    with (transform_pow2 u)
    by (unfold transform_pow2; now rewrite Hu, Nat.log2_pow2 by lia).
  replace (fold_left (fun b s => stage s b) (seq 0 k) v)
    with (transform_pow2 v)
    by (unfold transform_pow2; now rewrite Hv, Nat.log2_pow2 by lia).
  pose proof (@transform_pow2_length k u Hu) as Hu'.
  pose proof (@transform_pow2_length k v Hv) as Hv'.
  unfold stage. rewrite length_app, Hu', Hv'.
  replace (2 ^ k + 2 ^ k) with (2 ^ S k) by (simpl; lia).
  rewrite Nat.div_same by (pose proof (pow2_pos (S k)); lia).
  rewrite rows_one by (rewrite length_app, Hu', Hv'; simpl; lia).
  cbn [map concat]. rewrite app_nil_r.
  now apply butterfly_block_halves.
Qed.

(** The butterfly network on a buffer of length [2 ^ k] computes the product
    with the Sylvester matrix of order [2 ^ k]. *)
Lemma transform_pow2_sylvester k buf :
  length buf = 2 ^ k ->
  transform_pow2 buf = matvec (sylvester k) buf.
Proof.
  revert buf; induction k as [|k IH]; intros buf H.
  - destruct buf as [|a [|b buf]]; try discriminate H.
    now rewrite sylvester_0_matvec.
  - rewrite <- (firstn_skipn (2 ^ k) buf).
    assert (Hu : length (firstn (2 ^ k) buf) = 2 ^ k)
      by (rewrite firstn_length_le; simpl in H; lia).
    assert (Hv : length (skipn (2 ^ k) buf) = 2 ^ k)
      by (rewrite length_skipn; simpl in H; lia).
    rewrite (@transform_pow2_succ k _ _ Hu Hv), matvec_sylvester_succ by exact Hu.
    now rewrite !IH.
Qed.

(** ** The fast path for base 1 *)

Lemma rows_singletons (l : list Z) :
  rows (length l) 1 l = map (fun x => [x]) l.
Proof. induction l as [|a l IH]; [reflexivity|]. simpl. now rewrite IH. Qed.

Lemma transpose_one_row (l : list Z) :
  transpose (length l) [l] = map (fun x => [x]) l.
Proof. induction l as [|a l IH]; [reflexivity|]. simpl. now rewrite IH. Qed.

Lemma concat_singletons (l : list Z) : concat (map (fun x => [x]) l) = l.
Proof. induction l as [|a l IH]; [reflexivity|]. simpl. now rewrite IH. Qed.

Lemma transform_base1 M k buf :
  length buf = 2 ^ k ->
  transform Base1 M buf = matvec (sylvester k) buf.
Proof.
  intros H. unfold transform. cbn [base_value]. rewrite Nat.div_1_r.
  rewrite rows_singletons. cbn [transpose map].
  rewrite map_map. cbn [hd]. rewrite map_id.
  pose proof (@transform_pow2_length k buf H) as HT.
  rewrite H, <- HT, transpose_one_row, concat_singletons.
  now apply transform_pow2_sylvester.
Qed.

Lemma find_k_base1 len fuel k :
  0 < len ->
  k <= Nat.log2_up len ->
  Nat.log2_up len < k + fuel ->
  find_k len 1 fuel k = Some (Nat.log2_up len).
Proof.
  intros Hlen. revert k; induction fuel as [|fuel IH]; intros k Hk Hf; [lia|].
  cbn [find_k]. rewrite Nat.mul_1_l.
  destruct (len <=? 2 ^ k) eqn:Hle.
  - apply Nat.leb_le in Hle. apply Nat.log2_up_le_pow2 in Hle; [|exact Hlen].
    f_equal. lia.
  - apply Nat.leb_gt in Hle. apply Nat.log2_up_lt_pow2 in Hle; [|exact Hlen].
    apply IH; lia.
Qed.

Lemma resolve_base1 k_max len :
  0 < len ->
  len <= 2 ^ k_max ->
  resolve k_max len Base1 =
  Ok (2 ^ Nat.log2_up len, 2 ^ Nat.log2_up len - len).
Proof.
  intros Hlen Hmax. unfold resolve.
  replace (len =? 0) with false by (symmetry; apply Nat.eqb_neq; lia).
  cbn [base_value]. rewrite find_k_base1; try lia.
  - now rewrite Nat.mul_1_l.
  - apply Nat.log2_up_le_pow2 in Hmax; lia.
Qed.

Lemma fast_kernel_base1_contents k_max M h x dim scale :
  well_formed h x ->
  shape_last (shape x) = Ok dim ->
  0 < dim ->
  dim <= 2 ^ k_max ->
  run_contents (fast_kernel k_max Base1 M x scale false) h
  = Ok (ref_data (shape x) dim scale (contents h x)).
Proof.
  intros [Hs Hlen] Hl Hdim Hmax.
  unfold run_contents, fast_kernel, bind, lift, get_heap.
  rewrite Hl, (@resolve_base1 k_max dim Hdim Hmax). cbn [snd andb].
  unfold new_tensor, bind, alloc, ret. unfold contents at 1.
  cbn [storage layout]. rewrite map_read_contiguous. f_equal.
  unfold ref_data, ref_row. f_equal. apply map_ext_in. intros row Hin.
  assert (Hd : length (contents h x) = row_count (shape x) * dim)
    by (rewrite contents_length, Hlen; now apply numel_last).
  pose proof (@rows_Forall_length _ _ _ _ Hd) as HF.
  rewrite Forall_forall in HF. specialize (HF row Hin).
  rewrite (@transform_base1 M (Nat.log2_up dim)); [reflexivity|].
  rewrite length_app, repeat_length, HF.
  pose proof (pow2_log2_up_ge dim). lia.
Qed.

(** C2: for base factor 1 and a row length within the kernel's
    maximum, the fast path, which is the butterfly network on the padded
    row, returns what the dense reference implementation returns.  The
    reference implementation pads to a power of two and multiplies by the
    Sylvester matrix; it is not a reference for the other base factors. *)
Theorem C2_fast_path_base1_agrees_with_ref
  (reshape_is_view : Tensor -> list nat -> bool)
  (k_max : nat) (M_12 M_20 M_28 M_40 : Matrix)
  (h : Heap) (x : Tensor) (dim : nat) (scale : Z) :
  well_formed h x ->
  shape_last (shape x) = Ok dim ->
  0 < dim ->
  dim <= 2 ^ k_max ->
  exists out,
    run_contents
      (hadamard_transform (spec_cuda k_max M_12 M_20 M_28 M_40) x scale false)
      h = Ok out /\
    run_contents
      (hadamard_transform_ref reshape_is_view (Some scipy_hadamard) x scale) h
      = Ok out.
Proof.
  intros Hwf Hl Hdim Hmax.
  exists (ref_data (shape x) dim scale (contents h x)). split.
  - pose proof (@fast_kernel_base1_contents k_max [[1%Z]] h x dim scale
                  Hwf Hl Hdim Hmax) as Hk.
    unfold run_contents in *.
    change (hadamard_transform (spec_cuda k_max M_12 M_20 M_28 M_40) x scale
              false h)
      with (apply (generic_forward (fast_kernel k_max Base1 [[1%Z]])) x scale
              false h).
    rewrite apply_generic_forward.
    destruct (fast_kernel k_max Base1 [[1%Z]] x scale false h) as [[t|e] h'];
      exact Hk.
  - now apply hadamard_transform_ref_contents.
Qed.

Lemma C2_witness :
  exists out,
    run_contents
      (hadamard_transform (spec_cuda 15 had_12 [] [] []) C2_x 2 false) C2_heap
      = Ok out /\
    run_contents
      (hadamard_transform_ref (fun _ _ => true) (Some scipy_hadamard) C2_x 2)
      C2_heap = Ok out.
Proof.
  apply (@C2_fast_path_base1_agrees_with_ref (fun _ _ => true) 15
           had_12 [] [] [] C2_heap C2_x 3 2).
  - split; simpl; [lia|reflexivity].
  - reflexivity.
  - lia.
  - apply Nat.leb_le. vm_compute. reflexivity.
Defined.

(** Base 12 on the first unit row of length 12, which needs no padding for
    that base: the kernel returns the first column of its matrix, while the
    reference implementation pads to 16 and returns the first 12 entries of
    the first column of the Sylvester matrix, all ones. *)
Lemma C2_counterexample :
  run_contents
    (hadamard_transform_12N (spec_cuda 15 had_12 [] [] []) C2_x12 1 false)
    C2_heap12
  = Ok [1; -1; 1; 1; 1; 1; 1; 1; 1; 1; 1; 1]%Z /\
  run_contents
    (hadamard_transform_ref (fun _ _ => true) (Some scipy_hadamard) C2_x12 1)
    C2_heap12
  = Ok [1; 1; 1; 1; 1; 1; 1; 1; 1; 1; 1; 1]%Z /\
  run_contents
    (hadamard_transform_12N (spec_cuda 15 had_12 [] [] []) C2_x12 1 false)
    C2_heap12
  <> run_contents
       (hadamard_transform_ref (fun _ _ => true) (Some scipy_hadamard)
          C2_x12 1)
       C2_heap12.
Proof. repeat split; vm_compute; try reflexivity. discriminate. Qed.

(** The matrix above has the two properties the kernel's matrices are
    specified to have. *)
Lemma had_12_symmetric : transpose 12 had_12 = had_12.
Proof. reflexivity. Qed.

Lemma had_12_squares_to_12 :
  map (matvec had_12) had_12 =
  map (fun i => map (fun j => if i =? j then 12%Z else 0%Z) (seq 0 12))
    (seq 0 12).
Proof. vm_compute. reflexivity. Qed.

Lemma transform_base12_block M buf :
  length buf = 12 -> transform Base12 M buf = matvec M buf.
Proof.
  intros H.
  do 12 (destruct buf as [|? buf]; [discriminate H|]).
  destruct buf; [|discriminate H].
  unfold transform, transform_pow2, transform_base.
  cbn -[matvec]. apply app_nil_r.
Qed.

Lemma fast_kernel_base12_row k_max M row scale :
  length row = 12 ->
  run_contents
    (fast_kernel k_max Base12 M (mkTensor 0 [12] (contiguous 12)) scale false)
    [row]
  = Ok (firstn 12 (map (fun v => (v * scale)%Z) (matvec M row))).
Proof.
  intros H. unfold run_contents, fast_kernel, bind, lift, get_heap.
  cbn [shape shape_last rev app]. unfold resolve. cbn [Nat.eqb base_value].
  cbn [find_k]. change (12 <=? 12 * 2 ^ 0) with true.
  cbv iota. change (12 * 2 ^ 0 - 12) with 0. cbn [snd Nat.ltb andb].
  change (0 <? 0) with false. cbv iota.
  unfold new_tensor, bind, alloc, ret. unfold contents at 1.
  cbn [storage layout]. rewrite map_read_contiguous. f_equal.
  assert (Hc : contents [row] (mkTensor 0 [12] (contiguous 12)) = row).
  { unfold contents. cbn [storage layout]. rewrite <- H.
    apply (map_read_contiguous [] row). }
  rewrite Hc. change (row_count [12]) with 1.
  rewrite rows_one by exact H. cbn [map concat repeat].
  rewrite !app_nil_r. now rewrite transform_base12_block.
Qed.

Lemma dot_unit_row_0 n r : dot (unit_row (S n) 0) r = hd 0%Z r.
Proof.
  destruct r as [|a r]; [reflexivity|].
  unfold unit_row. cbn [seq map Nat.eqb]. rewrite dot_cons.
  rewrite <- seq_shift, map_map.
  assert (Hz : forall m l, dot (map (fun _ : nat => 0%Z) (seq 0 m)) l = 0%Z).
  { intros m. generalize 0 as st. induction m as [|m IHm]; intros st l;
      [reflexivity|].
    destruct l as [|b l]; [reflexivity|].
    cbn [seq map]. rewrite dot_cons, IHm. lia. }
  rewrite map_ext with (g := fun _ : nat => 0%Z) by reflexivity.
  rewrite Hz. cbn [hd]. lia.
Qed.

Lemma run_contents_apply kernel x scale inplace h :
  run_contents (apply (generic_forward kernel) x scale inplace) h =
  run_contents (kernel x scale inplace) h.
Proof.
  unfold run_contents. rewrite apply_generic_forward.
  destruct (kernel x scale inplace h) as [[t|e] h']; reflexivity.
Qed.

Lemma Ok_inj {A} (a b : A) : Ok a = Ok b -> a = b.
Proof. now intros [= ->]. Qed.

Lemma map_mul_1 (l : list Z) : map (fun v => (v * 1)%Z) l = l.
Proof. rewrite <- (map_id l) at 2. apply map_ext. intros; lia. Qed.

(** The disagreement does not depend on the matrix chosen: no symmetric
    matrix of order 12 whose square is 12 times the identity makes the
    base-12 kernel agree with the reference implementation on the unit rows
    number 0 and 8. *)
Lemma base12_kernel_never_agrees
  (reshape_is_view : Tensor -> list nat -> bool)
  (k_max : nat) (M M_20 M_28 M_40 : Matrix) :
  length M = 12 ->
  transpose 12 M = M ->
  (forall v, length v = 12 -> matvec M (matvec M v) = vscale 12 v) ->
  ~ (forall row, length row = 12 ->
       run_contents
         (hadamard_transform_12N (spec_cuda k_max M M_20 M_28 M_40)
            (mkTensor 0 [12] (contiguous 12)) 1 false) [row]
       = run_contents
           (hadamard_transform_ref reshape_is_view (Some scipy_hadamard)
              (mkTensor 0 [12] (contiguous 12)) 1) [row]).
Proof.
  intros HM Hsym Hinv Hagree.
  assert (Hk : forall row, length row = 12 ->
             firstn 12 (map (fun v => (v * 1)%Z) (matvec M row)) =
             ref_data [12] 12 1 row).
  { intros row Hrow. specialize (Hagree row Hrow).
    change (hadamard_transform_12N (spec_cuda k_max M M_20 M_28 M_40))
      with (apply (generic_forward (fast_kernel k_max Base12 M))) in Hagree.
    rewrite run_contents_apply, fast_kernel_base12_row in Hagree by exact Hrow.
    rewrite (@hadamard_transform_ref_contents reshape_is_view [row]
               (mkTensor 0 [12] (contiguous 12)) 12 1) in Hagree;
      [ | split; simpl; [lia|reflexivity] | reflexivity | lia ].
    apply Ok_inj in Hagree. rewrite Hagree. f_equal.
    unfold contents. cbn [storage layout]. rewrite <- Hrow.
    apply (map_read_contiguous [] row). }
  assert (Hfull : forall row,
             firstn 12 (map (fun v => (v * 1)%Z) (matvec M row)) =
             matvec M row).
  { intros row. rewrite map_mul_1. apply firstn_all2.
    rewrite matvec_length. lia. }
  pose proof (Hk (unit_row 12 0) eq_refl) as H0.
  pose proof (Hk (unit_row 12 8) eq_refl) as H8.
  rewrite Hfull in H0, H8.
  destruct M as [|row0 M']; [discriminate HM|].
  assert (Hrow0 : matvec (row0 :: M') (unit_row 12 0) = row0).
  { unfold matvec.
    rewrite map_ext with (g := hd 0%Z) by (intros; apply dot_unit_row_0).
    cbn [transpose] in Hsym. now injection Hsym as Hsym _. }
  rewrite Hrow0 in H0.
  pose proof (Hinv (unit_row 12 8) eq_refl) as Hsq.
  rewrite H8, H0 in Hsq. vm_compute in Hsq. discriminate Hsq.
Qed.

Lemma fast_kernel_fresh k_max base M x scale h :
  fresh_result (fast_kernel k_max base M x scale false) h.
Proof.
  unfold fresh_result, fast_kernel, bind, lift, get_heap.
  destruct (shape_last (shape x)) as [dim|e];
    [|split; [apply firstn_all|exact I]].
  destruct (resolve k_max dim base) as [sizes|e];
    [|split; [apply firstn_all|exact I]].
  cbn [andb]. unfold new_tensor, bind, alloc, ret. cbn [storage].
  split.
  - apply extends_firstn. auto with heap.
  - rewrite length_app. simpl. lia.
Qed.

Lemma C8_witness :
  (let '(r, h') :=
     hadamard_transform_ref (fun _ _ => true) (Some scipy_hadamard) C3_x 1
       C3_heap in
   firstn (length C3_heap) h' = C3_heap /\
   contents h' C3_x = contents C3_heap C3_x /\
   match r with
   | Ok t => storage t <> storage C3_x /\
             length C3_heap <= storage t < length h'
   | Raise _ => True
   end) /\
  fresh_result
    (hadamard_transform (spec_cuda 15 had_12 [] [] []) C3_x 1 false) C3_heap.
Proof.
  destruct (@C8_out_of_place_leaves_input (fun _ _ => true)
              (Some scipy_hadamard) (spec_cuda 15 had_12 [] [] [])
              C3_x 1 C3_heap) as (H1 & H2 & _); [simpl; lia|].
  split; [exact H1|]. apply H2. apply fast_kernel_fresh.
Defined.

(** ** Linearity of the fast path, for every base factor *)

Lemma vlins_cons a u U b v V :
  vlins a (u :: U) b (v :: V) = vlin a u b v :: vlins a U b V.
Proof. reflexivity. Qed.

Lemma same_shape_length U V : same_shape U V -> length U = length V.
Proof. induction 1; simpl; congruence. Qed.

Lemma rows_vlin r n a u b v :
  length u = length v ->
  rows r n (vlin a u b v) = vlins a (rows r n u) b (rows r n v) /\
  same_shape (rows r n u) (rows r n v).
Proof.
  revert u v; induction r as [|r IH]; intros u v H.
  - split; [reflexivity|constructor].
  - cbn [rows]. rewrite firstn_vlin, skipn_vlin, vlins_cons.
    destruct (IH (skipn n u) (skipn n v)) as [IH1 IH2];
      [rewrite !length_skipn; lia|].
    rewrite IH1. split; [reflexivity|].
    constructor; [rewrite !length_firstn; lia|exact IH2].
Qed.

Lemma concat_vlins a U b V :
  same_shape U V ->
  concat (vlins a U b V) = vlin a (concat U) b (concat V) /\
  length (concat U) = length (concat V).
Proof.
  induction 1 as [|u v U V Huv _ [IH1 IH2]].
  - split; reflexivity.
  - rewrite vlins_cons. cbn [concat]. rewrite IH1, vlin_app by exact Huv.
    split; [reflexivity|]. rewrite !length_app. lia.
Qed.

Lemma map_linear1 f : linear1 f -> linear2 (map f).
Proof.
  intros Hf a b U V HUV. induction HUV as [|u v U V Huv _ [IH1 IH2]].
  - split; [reflexivity|constructor].
  - rewrite vlins_cons. cbn [map]. rewrite vlins_cons, IH1.
    destruct (Hf a b u v Huv) as [-> Hlen].
    split; [reflexivity|now constructor].
Qed.

Lemma hd_vlin a u b v :
  length u = length v ->
  hd 0%Z (vlin a u b v) = (a * hd 0%Z u + b * hd 0%Z v)%Z.
Proof.
  destruct u as [|x u], v as [|y v]; intros H; try discriminate H;
    [simpl; lia|reflexivity].
Qed.

Lemma tl_vlin a u b v : tl (vlin a u b v) = vlin a (tl u) b (tl v).
Proof.
  destruct u as [|x u]; [reflexivity|].
  destruct v as [|y v]; [now rewrite !vlin_nil_r|reflexivity].
Qed.

Lemma map_hd_vlins a U b V :
  same_shape U V ->
  map (hd 0%Z) (vlins a U b V) =
  vlin a (map (hd 0%Z) U) b (map (hd 0%Z) V).
Proof.
  induction 1 as [|u v U V Huv _ IH]; [reflexivity|].
  rewrite vlins_cons. cbn [map]. rewrite vlin_cons, IH, hd_vlin by exact Huv.
  reflexivity.
Qed.

Lemma map_tl_vlins a U b V :
  same_shape U V ->
  map (@tl Z) (vlins a U b V) = vlins a (map (@tl Z) U) b (map (@tl Z) V) /\
  same_shape (map (@tl Z) U) (map (@tl Z) V).
Proof.
  induction 1 as [|u v U V Huv _ [IH1 IH2]].
  - split; [reflexivity|constructor].
  - rewrite vlins_cons. cbn [map]. rewrite vlins_cons, IH1, tl_vlin.
    split; [reflexivity|]. constructor; [|exact IH2].
    destruct u, v; simpl in *; lia.
Qed.

Lemma transpose_linear2 n : linear2 (transpose n).
Proof.
  induction n as [|n IH]; intros a b U V HUV.
  - split; [reflexivity|constructor].
  - cbn [transpose].
    destruct (@map_tl_vlins a _ b _ HUV) as [Ht Hs].
    rewrite map_hd_vlins, Ht by exact HUV.
    destruct (IH a b _ _ Hs) as [-> Hs'].
    rewrite vlins_cons. split; [reflexivity|].
    constructor; [|exact Hs'].
    rewrite !length_map. now apply same_shape_length.
Qed.

Lemma vadd_vlin a u1 u2 b v1 v2 :
  length u1 = length v1 ->
  length u2 = length v2 ->
  vadd (vlin a u1 b v1) (vlin a u2 b v2) =
  vlin a (vadd u1 u2) b (vadd v1 v2).
Proof.
  revert u2 v1 v2; induction u1 as [|x1 u1 IH]; intros u2 v1 v2 H1 H2.
  - destruct v1; [reflexivity|discriminate H1].
  - destruct v1 as [|y1 v1]; [discriminate H1|].
    destruct u2 as [|x2 u2], v2 as [|y2 v2]; try discriminate H2;
      [reflexivity|].
    injection H1 as H1. injection H2 as H2.
    rewrite !vlin_cons, !vadd_cons, vlin_cons, IH by assumption.
    f_equal. lia.
Qed.

Lemma vsub_vlin a u1 u2 b v1 v2 :
  length u1 = length v1 ->
  length u2 = length v2 ->
  vsub (vlin a u1 b v1) (vlin a u2 b v2) =
  vlin a (vsub u1 u2) b (vsub v1 v2).
Proof.
  revert u2 v1 v2; induction u1 as [|x1 u1 IH]; intros u2 v1 v2 H1 H2.
  - destruct v1; [reflexivity|discriminate H1].
  - destruct v1 as [|y1 v1]; [discriminate H1|].
    destruct u2 as [|x2 u2], v2 as [|y2 v2]; try discriminate H2;
      [reflexivity|].
    injection H1 as H1. injection H2 as H2.
    rewrite !vlin_cons, !vsub_cons, vlin_cons, IH by assumption.
    f_equal. lia.
Qed.

Lemma vadd_length_min u v : length (vadd u v) = Nat.min (length u) (length v).
Proof. unfold vadd. now rewrite length_map, length_combine. Qed.

Lemma vsub_length_min u v : length (vsub u v) = Nat.min (length u) (length v).
Proof. unfold vsub. now rewrite length_map, length_combine. Qed.

Lemma butterfly_block_linear1 half : linear1 (butterfly_block half).
Proof.
  intros a b u v H. unfold butterfly_block.
  assert (Hf : length (firstn half u) = length (firstn half v))
    by (rewrite !length_firstn; lia).
  assert (Hs : length (skipn half u) = length (skipn half v))
    by (rewrite !length_skipn; lia).
  rewrite firstn_vlin, skipn_vlin, vadd_vlin, vsub_vlin by assumption.
  rewrite vlin_app by (rewrite !vadd_length_min; lia).
  split; [reflexivity|].
  rewrite !length_app, !vadd_length_min, !vsub_length_min. lia.
Qed.

Lemma stage_linear1 s : linear1 (stage s).
Proof.
  intros a b u v H. unfold stage.
  rewrite vlin_length, H by exact H.
  destruct (@rows_vlin (length v / 2 ^ S s) (2 ^ S s) a u b v H) as [-> Hs].
  destruct (@map_linear1 _ (butterfly_block_linear1 (2 ^ s)) a b _ _ Hs)
    as [-> Hs'].
  now apply concat_vlins.
Qed.

Lemma fold_stage_linear1 l : linear1 (fold_left (fun b s => stage s b) l).
Proof.
  induction l as [|s l IH]; intros a b u v H.
  - split; [reflexivity|exact H].
  - cbn [fold_left]. destruct (stage_linear1 s a b u v H) as [-> Hlen].
    now apply IH.
Qed.

Lemma transform_pow2_linear1 : linear1 transform_pow2.
Proof.
  intros a b u v H. unfold transform_pow2.
  rewrite vlin_length, H by exact H.
  now apply fold_stage_linear1.
Qed.

Lemma matvec_linear1 M : linear1 (matvec M).
Proof.
  intros a b u v H. split; [now apply matvec_vlin|].
  now rewrite !matvec_length.
Qed.

Lemma transform_base_linear1 base M : linear1 (transform_base base M).
Proof.
  destruct base; cbn [transform_base]; try apply matvec_linear1.
  intros a b u v H. split; [reflexivity|exact H].
Qed.

Lemma transform_linear1 base M : linear1 (transform base M).
Proof.
  intros a b u v H.
  assert (Hcore :
    let n := length v / base_value base in
    transpose n (map transform_pow2
                   (transpose (base_value base)
                      (rows n (base_value base) (vlin a u b v)))) =
    vlins a
      (transpose n (map transform_pow2
                      (transpose (base_value base)
                         (rows n (base_value base) u)))) b
      (transpose n (map transform_pow2
                      (transpose (base_value base)
                         (rows n (base_value base) v)))) /\
    same_shape
      (transpose n (map transform_pow2
                      (transpose (base_value base)
                         (rows n (base_value base) u))))
      (transpose n (map transform_pow2
                      (transpose (base_value base)
                         (rows n (base_value base) v))))).
  { intros n.
    destruct (@rows_vlin n (base_value base) a u b v H) as [-> Hs1].
    destruct (@transpose_linear2 (base_value base) a b _ _ Hs1) as [-> Hs2].
    destruct (@map_linear1 _ transform_pow2_linear1 a b _ _ Hs2) as [-> Hs3].
    now apply transpose_linear2. }
  cbv zeta in Hcore. destruct Hcore as [Hc Hs].
  unfold transform. rewrite vlin_length, H by exact H.
  rewrite Hc.
  destruct base; cbv iota; [now apply concat_vlins|..];
    match goal with
    | |- context [map (transform_base ?bs M)] =>
        destruct (@map_linear1 _ (transform_base_linear1 bs M) a b _ _ Hs)
          as [Hm Hs']
    end;
    rewrite Hm; now apply concat_vlins.
Qed.

Lemma fast_row_linear1 base M dim scale pad_amount :
  linear1 (fun row =>
             firstn dim
               (map (fun v => (v * scale)%Z)
                  (transform base M (row ++ repeat 0%Z pad_amount)))).
Proof.
  intros a b u v H.
  assert (Hp : length (u ++ repeat 0%Z pad_amount) =
               length (v ++ repeat 0%Z pad_amount))
    by (rewrite !length_app; lia).
  rewrite <- (vlin_repeat_0 a b pad_amount) at 1.
  rewrite <- vlin_app by exact H.
  destruct (transform_linear1 base M a b _ _ Hp) as [-> Hlen].
  rewrite map_mul_vlin, firstn_vlin. split; [reflexivity|].
  rewrite !length_firstn, !length_map. lia.
Qed.

Lemma fast_kernel_contents k_max base M h x scale :
  run_contents (fast_kernel k_max base M x scale false) h =
  match shape_last (shape x) with
  | Ok dim =>
      match resolve k_max dim base with
      | Ok sizes =>
          Ok (concat
                (map (fun row =>
                        firstn dim
                          (map (fun v => (v * scale)%Z)
                             (transform base M
                                (row ++ repeat 0%Z (snd sizes)))))
                   (rows (row_count (shape x)) dim (contents h x))))
      | Raise e => Raise e
      end
  | Raise e => Raise e
  end.
Proof.
  unfold run_contents, fast_kernel, bind, lift, get_heap.
  destruct (shape_last (shape x)) as [dim|e]; [|reflexivity].
  destruct (resolve k_max dim base) as [sizes|e]; [|reflexivity].
  cbn [andb]. unfold new_tensor, bind, alloc, ret. unfold contents at 1.
  cbn [storage layout]. now rewrite map_read_contiguous.
Qed.

(** The fast path is linear for every base factor and every matrix of the
    base: on tensors [x], [y] and [z] of one shape, [z] holding
    [a * x + b * y], the three calls fail alike or return [rx], [ry] and
    [a * rx + b * ry]. *)
Lemma fast_kernel_linear k_max base M h x y z a b scale :
  well_formed h x -> well_formed h y ->
  shape y = shape x -> shape z = shape x ->
  contents h z = vlin a (contents h x) b (contents h y) ->
  match run_contents (fast_kernel k_max base M x scale false) h,
        run_contents (fast_kernel k_max base M y scale false) h,
        run_contents (fast_kernel k_max base M z scale false) h with
  | Ok rx, Ok ry, Ok rz => rz = vlin a rx b ry
  | Raise ex, Raise ey, Raise ez => ex = ey /\ ey = ez
  | _, _, _ => False
  end.
Proof.
  intros [_ Hx] [_ Hy] Hsy Hsz Hc.
  rewrite !fast_kernel_contents, Hsy, Hsz, Hc.
  destruct (shape_last (shape x)) as [dim|e]; [|now split].
  destruct (resolve k_max dim base) as [sizes|e]; [|now split].
  assert (Hlen : length (contents h x) = length (contents h y))
    by (rewrite !contents_length, Hx, Hy; now rewrite Hsy).
  destruct (@rows_vlin (row_count (shape x)) dim a _ b _ Hlen) as [-> Hs].
  destruct (@map_linear1 _ (fast_row_linear1 base M dim scale (snd sizes))
              a b _ _ Hs) as [Hm Hs'].
  cbv beta in Hm. rewrite Hm. now apply concat_vlins.
Qed.

(** ** Further properties of the reference implementation *)

Lemma dot_nil_r u : dot u [] = 0%Z.
Proof. destruct u; reflexivity. Qed.

Lemma dot_comm u v : dot u v = dot v u.
Proof.
  revert v; induction u as [|a u IH]; intros [|b v]; try reflexivity.
  rewrite !dot_cons, IH. lia.
Qed.

Lemma dot_map_mul_l s y r :
  dot (map (fun v => (v * s)%Z) y) r = (s * dot y r)%Z.
Proof.
  revert r; induction y as [|a y IH]; intros [|b r];
    try (unfold dot; simpl; lia).
  cbn [map]. rewrite !dot_cons, IH. lia.
Qed.

Lemma dot_pad_r y r q : dot y (r ++ repeat 0%Z q) = dot y r.
Proof.
  revert y; induction r as [|b r IH]; intros y.
  - cbn [app]. now rewrite dot_repeat_0_r, dot_nil_r.
  - destruct y as [|a y]; [reflexivity|].
    rewrite <- app_comm_cons, !dot_cons, IH. reflexivity.
Qed.

Lemma dot_firstn_l n y r : length r <= n -> dot (firstn n y) r = dot y r.
Proof.
  revert y r; induction n as [|n IH]; intros y r H.
  - destruct r; [now rewrite !dot_nil_r|simpl in H; lia].
  - destruct y as [|a y]; [reflexivity|].
    destruct r as [|b r]; [reflexivity|].
    cbn [firstn]. rewrite !dot_cons, IH by (simpl in H; lia). reflexivity.
Qed.

(** The Sylvester matrix is symmetric: the product with it is its own
    adjoint. *)
Lemma sylvester_self_adjoint k u v :
  length u = 2 ^ k -> length v = 2 ^ k ->
  dot (matvec (sylvester k) u) v = dot u (matvec (sylvester k) v).
Proof.
  revert u v; induction k as [|k IH]; intros u v Hu Hv.
  - destruct u as [|a [|? ?]]; try discriminate Hu.
    destruct v as [|b [|? ?]]; try discriminate Hv.
    now rewrite !sylvester_0_matvec.
  - assert (Hk : 2 ^ S k = 2 ^ k + 2 ^ k) by (simpl; lia).
    rewrite <- (firstn_skipn (2 ^ k) u), <- (firstn_skipn (2 ^ k) v).
    set (u1 := firstn (2 ^ k) u). set (u2 := skipn (2 ^ k) u).
    set (v1 := firstn (2 ^ k) v). set (v2 := skipn (2 ^ k) v).
    assert (Hu1 : length u1 = 2 ^ k)
      by (subst u1; rewrite firstn_length_le; lia).
    assert (Hu2 : length u2 = 2 ^ k) by (subst u2; rewrite length_skipn; lia).
    assert (Hv1 : length v1 = 2 ^ k)
      by (subst v1; rewrite firstn_length_le; lia).
    assert (Hv2 : length v2 = 2 ^ k) by (subst v2; rewrite length_skipn; lia).
    assert (HL : forall w, length (matvec (sylvester k) w) = 2 ^ k)
      by (intros w; now rewrite matvec_length, sylvester_length).
    rewrite !matvec_sylvester_succ by assumption.
    rewrite dot_app by (rewrite vadd_length; rewrite !HL; lia).
    rewrite dot_app by (rewrite vadd_length; rewrite !HL; lia).
    rewrite dot_vadd_l, dot_vsub_l by (rewrite !HL; reflexivity).
    rewrite (dot_comm u1 (vadd _ _)), (dot_comm u2 (vsub _ _)).
    rewrite dot_vadd_l, dot_vsub_l by (rewrite !HL; reflexivity).
    rewrite !(dot_comm (matvec (sylvester k) v1)).
    rewrite !(dot_comm (matvec (sylvester k) v2)).
    rewrite !IH by assumption. lia.
Qed.

Lemma ref_row_self_adjoint dim scale r1 r2 :
  length r1 = dim -> length r2 = dim ->
  dot (ref_row dim scale r1) r2 = dot r1 (ref_row dim scale r2).
Proof.
  intros H1 H2.
  assert (Hhalf : forall a b, length a = dim -> length b = dim ->
            dot (ref_row dim scale a) b =
            (scale * dot (matvec (sylvester (Nat.log2_up dim))
                            (a ++ repeat 0%Z (2 ^ Nat.log2_up dim - dim)))
                       (b ++ repeat 0%Z (2 ^ Nat.log2_up dim - dim)))%Z).
  { intros a b Ha Hb. unfold ref_row.
    rewrite dot_firstn_l by lia.
    now rewrite dot_map_mul_l, dot_pad_r. }
  rewrite (dot_comm r1), !Hhalf by assumption. f_equal.
  pose proof (pow2_log2_up_ge dim) as Hge.
  rewrite sylvester_self_adjoint
    by (rewrite length_app, repeat_length; lia).
  apply dot_comm.
Qed.

Lemma ref_data_self_adjoint s dim scale d1 d2 :
  length d1 = row_count s * dim ->
  length d2 = row_count s * dim ->
  dot (ref_data s dim scale d1) d2 = dot d1 (ref_data s dim scale d2).
Proof.
  unfold ref_data. generalize (row_count s) as rc.
  intros rc; revert d1 d2; induction rc as [|rc IH]; intros d1 d2 H1 H2.
  - destruct d1; [reflexivity|discriminate H1].
  - cbn [rows map concat].
    assert (Hf1 : length (firstn dim d1) = dim)
      by (rewrite firstn_length_le; simpl in H1; lia).
    assert (Hf2 : length (firstn dim d2) = dim)
      by (rewrite firstn_length_le; simpl in H2; lia).
    transitivity
      (dot (ref_row dim scale (firstn dim d1) ++
            concat (map (ref_row dim scale) (rows rc dim (skipn dim d1))))
           (firstn dim d2 ++ skipn dim d2));
      [now rewrite firstn_skipn|].
    transitivity
      (dot (firstn dim d1 ++ skipn dim d1)
           (ref_row dim scale (firstn dim d2) ++
            concat (map (ref_row dim scale) (rows rc dim (skipn dim d2)))));
      [|now rewrite firstn_skipn].
    rewrite !dot_app by (rewrite ?ref_row_length; lia).
    rewrite ref_row_self_adjoint by assumption.
    rewrite IH by (rewrite length_skipn; simpl in *; lia).
    reflexivity.
Qed.

Lemma well_formed_contents_length h x dim :
  well_formed h x -> shape_last (shape x) = Ok dim ->
  length (contents h x) = row_count (shape x) * dim.
Proof.
  intros [_ Hlen] Hl. rewrite contents_length, Hlen. now apply numel_last.
Qed.

(** X2: the reference transform is its own adjoint, which is what lets a
    backward pass reuse the forward transform: for tensors [x] and [g] of
    one shape, the inner product of the transform of [x] with [g] is the
    inner product of [x] with the transform of [g], padding and truncation
    included. *)
Theorem X2_ref_self_adjoint
  (reshape_is_view : Tensor -> list nat -> bool)
  (h : Heap) (x g : Tensor) (dim : nat) (scale : Z) :
  well_formed h x -> well_formed h g ->
  shape g = shape x ->
  shape_last (shape x) = Ok dim ->
  0 < dim ->
  exists rx rg,
    run_contents
      (hadamard_transform_ref reshape_is_view (Some scipy_hadamard) x scale) h
      = Ok rx /\
    run_contents
      (hadamard_transform_ref reshape_is_view (Some scipy_hadamard) g scale) h
      = Ok rg /\
    dot rx (contents h g) = dot (contents h x) rg.
Proof.
  intros Hx Hg Hsg Hl Hdim.
  exists (ref_data (shape x) dim scale (contents h x)),
         (ref_data (shape x) dim scale (contents h g)).
  split; [now apply hadamard_transform_ref_contents|]. split.
  - rewrite <- Hsg. apply hadamard_transform_ref_contents; auto.
    now rewrite Hsg.
  - apply ref_data_self_adjoint.
    + now apply well_formed_contents_length.
    + rewrite <- Hsg. apply well_formed_contents_length; auto.
      now rewrite Hsg.
Qed.

Lemma X2_witness :
  exists rx rg,
    run_contents
      (hadamard_transform_ref (fun _ _ => true) (Some scipy_hadamard) ex_x 3)
      ex_heap = Ok rx /\
    run_contents
      (hadamard_transform_ref (fun _ _ => true) (Some scipy_hadamard) ex_g 3)
      ex_heap = Ok rg /\
    dot rx (contents ex_heap ex_g) = dot (contents ex_heap ex_x) rg.
Proof.
  apply (@X2_ref_self_adjoint (fun _ _ => true) ex_heap ex_x ex_g 3 3);
    try reflexivity; try (split; simpl; [lia|reflexivity]); lia.
Defined.

Lemma shape_last_raises s e : shape_last s = Raise e -> e = IndexError.
Proof.
  unfold shape_last. destruct (rev s); [now intros [= <-]|discriminate].
Qed.

(** X1: the outcomes of the reference implementation when scipy is there.  A
    tensor without dimensions raises [IndexError], a tensor whose last
    dimension is 0 raises the [RuntimeError] of the reshape, both with the
    heap untouched, and every other well-formed tensor gives a well-formed
    tensor of the same shape: neither [math.log2] nor scipy's [hadamard]
    ever raises its [ValueError]. *)
Theorem X1_ref_outcomes
  (reshape_is_view : Tensor -> list nat -> bool)
  (h : Heap) (x : Tensor) (scale : Z) :
  well_formed h x ->
  match shape_last (shape x) with
  | Raise _ =>
      hadamard_transform_ref reshape_is_view (Some scipy_hadamard) x scale h
      = (Raise IndexError, h)
  | Ok 0 =>
      hadamard_transform_ref reshape_is_view (Some scipy_hadamard) x scale h
      = (Raise RuntimeError, h)
  | Ok (S _) =>
      exists t h',
        hadamard_transform_ref reshape_is_view (Some scipy_hadamard) x scale h
        = (Ok t, h') /\
        shape t = shape x /\ well_formed h' t
  end.
Proof.
  intros [Hs Hlen].
  destruct (shape_last (shape x)) as [[|d]|e] eqn:Hl.
  - now apply ref_zero_dim_raises.
  - pose proof (hadamard_transform_ref_run reshape_is_view scale
                  (conj Hs (conj eq_refl eq_refl))
                  (eq_trans (contents_length h x) Hlen) Hl
                  (Nat.lt_0_succ d)) as Hrun.
    apply triple_no_exn_inv in Hrun.
    destruct Hrun as (t & h' & Hrun & _ & _ & Hst & Hsh & Hc).
    exists t, h'. split; [exact Hrun|]. split; [exact Hsh|].
    split; [exact Hst|].
    rewrite <- (contents_length h' t), Hc, ref_data_length, Hsh.
    symmetry. now apply numel_last.
  - pose proof (shape_last_raises _ Hl) as ->.
    unfold hadamard_transform_ref, bind, lift. now rewrite Hl.
Qed.

Lemma X1_witness :
  exists t h',
    hadamard_transform_ref (fun _ _ => false) (Some scipy_hadamard) ex_x 3
      ex_heap = (Ok t, h') /\
    shape t = shape ex_x /\ well_formed h' t.
Proof.
  apply (@X1_ref_outcomes (fun _ _ => false) ex_heap ex_x 3).
  split; simpl; [lia|reflexivity].
Defined.

Lemma row_count_of_contents h x dim :
  well_formed h x -> shape_last (shape x) = Ok dim -> 0 < dim ->
  row_count (shape x) = length (contents h x) / dim.
Proof.
  intros Hx Hl Hdim. rewrite (well_formed_contents_length Hx Hl).
  symmetry. apply Nat.div_mul. lia.
Qed.

(** X7: the values the reference implementation returns depend on the rows
    of its input only: two well-formed tensors with the same elements and
    the same last dimension give the same elements, or the same exception,
    whatever their leading dimensions, their storages and the choice of
    views or copies made by [reshape]. *)
Theorem X7_ref_depends_on_rows_only
  (reshape_is_view reshape_is_view' : Tensor -> list nat -> bool)
  (h h' : Heap) (x x' : Tensor) (dim : nat) (scale : Z) :
  well_formed h x -> well_formed h' x' ->
  shape_last (shape x) = Ok dim ->
  shape_last (shape x') = Ok dim ->
  contents h x = contents h' x' ->
  run_contents
    (hadamard_transform_ref reshape_is_view (Some scipy_hadamard) x scale) h
  = run_contents
      (hadamard_transform_ref reshape_is_view' (Some scipy_hadamard) x' scale)
      h'.
Proof.
  intros Hx Hx' Hl Hl' Hc.
  destruct dim as [|d].
  - unfold run_contents. now rewrite !ref_zero_dim_raises.
  - rewrite !(@hadamard_transform_ref_contents _ _ _ (S d)) by (auto; lia).
    unfold ref_data.
    rewrite (@row_count_of_contents h x (S d)) by (auto; lia).
    rewrite (@row_count_of_contents h' x' (S d)) by (auto; lia).
    now rewrite Hc.
Qed.

Lemma X7_witness :
  run_contents
    (hadamard_transform_ref (fun _ _ => true) (Some scipy_hadamard) ex_x 3)
    ex_heap
  = run_contents
      (hadamard_transform_ref (fun _ _ => false) (Some scipy_hadamard)
         ex_flat 3)
      ex_heap.
Proof.
  apply (@X7_ref_depends_on_rows_only (fun _ _ => true) (fun _ _ => false)
           ex_heap ex_heap ex_x ex_flat 3 3);
    try reflexivity; split; simpl; try lia; reflexivity.
Defined.

Lemma map_mul_vscale s l : map (fun v => (v * s)%Z) l = vscale s l.
Proof. apply map_ext. intros; lia. Qed.

Lemma ref_row_scale dim s1 s2 r :
  ref_row dim (s1 * s2) r = vscale s1 (ref_row dim s2 r).
Proof.
  unfold ref_row, vscale. rewrite <- firstn_map, map_map. f_equal.
  apply map_ext. intros; lia.
Qed.

Lemma ref_data_scale s dim s1 s2 d :
  ref_data s dim (s1 * s2) d = vscale s1 (ref_data s dim s2 d).
Proof.
  unfold ref_data, vscale. rewrite concat_map, map_map. f_equal.
  apply map_ext. intros r. apply ref_row_scale.
Qed.

(** X3: the scale factors out of the reference transform: with the scale
    [s1 * s2] it returns [s1] times what it returns with the scale [s2]; in
    particular every result is the scale times the result at scale 1. *)
Theorem X3_ref_scale_factors_out
  (reshape_is_view : Tensor -> list nat -> bool)
  (h : Heap) (x : Tensor) (dim : nat) (s1 s2 : Z) :
  well_formed h x ->
  shape_last (shape x) = Ok dim ->
  0 < dim ->
  exists r,
    run_contents
      (hadamard_transform_ref reshape_is_view (Some scipy_hadamard) x s2) h
      = Ok r /\
    run_contents
      (hadamard_transform_ref reshape_is_view (Some scipy_hadamard) x
         (s1 * s2)) h
      = Ok (vscale s1 r).
Proof.
  intros Hx Hl Hdim.
  exists (ref_data (shape x) dim s2 (contents h x)).
  rewrite <- ref_data_scale.
  split; now apply hadamard_transform_ref_contents.
Qed.

Lemma X3_witness :
  exists r,
    run_contents
      (hadamard_transform_ref (fun _ _ => true) (Some scipy_hadamard) ex_x 1)
      ex_heap = Ok r /\
    run_contents
      (hadamard_transform_ref (fun _ _ => true) (Some scipy_hadamard) ex_x
         (7 * 1)) ex_heap
      = Ok (vscale 7 r).
Proof.
  apply (@X3_ref_scale_factors_out (fun _ _ => true) ex_heap ex_x 3 7 1);
    [split; simpl; [lia|reflexivity] | reflexivity | lia].
Defined.

Lemma ref_row_pow2_twice k scale r :
  length r = 2 ^ k ->
  ref_row (2 ^ k) scale (ref_row (2 ^ k) scale r) =
  vscale (scale * scale * Z.of_nat (2 ^ k)) r.
Proof.
  intros Hr.
  rewrite (@ref_row_pow2 k scale r Hr), map_mul_vscale.
  rewrite ref_row_pow2
    by (now rewrite vscale_length, matvec_length, sylvester_length).
  rewrite map_mul_vscale, matvec_vscale, sylvester_involution by exact Hr.
  rewrite !vscale_vscale. f_equal; lia.
Qed.

Lemma ref_data_pow2_twice s k scale d :
  length d = row_count s * 2 ^ k ->
  ref_data s (2 ^ k) scale (ref_data s (2 ^ k) scale d) =
  vscale (scale * scale * Z.of_nat (2 ^ k)) d.
Proof.
  intros Hd. rewrite ref_data_twice.
  rewrite map_ext_in with (g := vscale (scale * scale * Z.of_nat (2 ^ k))).
  - unfold vscale. rewrite <- concat_map. now rewrite concat_rows.
  - intros r Hin. apply ref_row_pow2_twice.
    pose proof (@rows_Forall_length _ _ _ _ Hd) as HF.
    rewrite Forall_forall in HF. now apply HF.
Qed.

(** X4: on rows whose length [N] is a power of two, the reference transform
    with scale [s] applied to its own result returns [s * s * N] times the
    input: a scale with [s * s * N = 1] makes the transform its own
    inverse. *)
Theorem X4_ref_twice_with_scale
  (reshape_is_view : Tensor -> list nat -> bool)
  (h : Heap) (x : Tensor) (k : nat) (scale : Z) :
  well_formed h x ->
  shape_last (shape x) = Ok (2 ^ k) ->
  run_contents
    (transform_twice reshape_is_view (Some scipy_hadamard) x scale) h
  = Ok (vscale (scale * scale * Z.of_nat (2 ^ k)) (contents h x)).
Proof.
  intros Hx Hl. pose proof Hx as [Hs Hlen].
  pose proof (transform_twice_run reshape_is_view scale
                (conj Hs (conj eq_refl eq_refl))
                (eq_trans (contents_length h x) Hlen) Hl (pow2_pos k))
    as Hrun.
  apply triple_no_exn_inv in Hrun.
  destruct Hrun as (t & h' & Hrun & _ & _ & Hc).
  unfold run_contents. rewrite Hrun, Hc. f_equal.
  apply ref_data_pow2_twice. now apply well_formed_contents_length.
Qed.

Lemma X4_witness :
  run_contents
    (transform_twice (fun _ _ => true) (Some scipy_hadamard) ex_x4 3) ex_heap4
  = Ok (vscale (3 * 3 * Z.of_nat (2 ^ 2)) (contents ex_heap4 ex_x4)).
Proof.
  apply (@X4_ref_twice_with_scale (fun _ _ => true) ex_heap4 ex_x4 2 3);
    [split; simpl; [lia|reflexivity] | reflexivity].
Defined.

Lemma dot_vscale_r a u r : dot u (vscale a r) = (a * dot u r)%Z.
Proof. now rewrite dot_comm, dot_vscale_l, dot_comm. Qed.

(** X5: on rows whose length [N] is a power of two the reference transform
    keeps inner products up to the factor [s * s * N]: the sum of the squares
    of the result is [s * s * N] times the sum of the squares of the input. *)
Theorem X5_ref_energy
  (reshape_is_view : Tensor -> list nat -> bool)
  (h : Heap) (x : Tensor) (k : nat) (scale : Z) :
  well_formed h x ->
  shape_last (shape x) = Ok (2 ^ k) ->
  exists r,
    run_contents
      (hadamard_transform_ref reshape_is_view (Some scipy_hadamard) x scale) h
      = Ok r /\
    dot r r =
    (scale * scale * Z.of_nat (2 ^ k) * dot (contents h x) (contents h x))%Z.
Proof.
  intros Hx Hl.
  exists (ref_data (shape x) (2 ^ k) scale (contents h x)).
  split; [apply hadamard_transform_ref_contents; auto using pow2_pos|].
  pose proof (well_formed_contents_length Hx Hl) as Hd.
  rewrite ref_data_self_adjoint by (now rewrite ?ref_data_length).
  now rewrite ref_data_pow2_twice, dot_vscale_r by exact Hd.
Qed.

Lemma X5_witness :
  exists r,
    run_contents
      (hadamard_transform_ref (fun _ _ => true) (Some scipy_hadamard) ex_x4 3)
      ex_heap4 = Ok r /\
    dot r r =
    (3 * 3 * Z.of_nat (2 ^ 2) *
     dot (contents ex_heap4 ex_x4) (contents ex_heap4 ex_x4))%Z.
Proof.
  apply (@X5_ref_energy (fun _ _ => true) ex_heap4 ex_x4 2 3);
    [split; simpl; [lia|reflexivity] | reflexivity].
Defined.

(** X6: the implicit padding is the explicit one.  The transform of a tensor
    whose last dimension [dim] is not a power of two is the transform of the
    tensor padded with zeros to [dim_padded], cut back to the first [dim]
    elements of every row. *)
Theorem X6_ref_implicit_padding
  (reshape_is_view : Tensor -> list nat -> bool)
  (h : Heap) (x xp : Tensor) (dim : nat) (scale : Z) :
  well_formed h x -> well_formed h xp ->
  shape_last (shape x) = Ok dim ->
  0 < dim ->
  shape xp = set_last (shape x) (2 ^ Nat.log2_up dim) ->
  contents h xp =
    concat (map (fun r => r ++ repeat 0%Z (2 ^ Nat.log2_up dim - dim))
              (rows (row_count (shape x)) dim (contents h x))) ->
  exists r rp,
    run_contents
      (hadamard_transform_ref reshape_is_view (Some scipy_hadamard) x scale) h
      = Ok r /\
    run_contents
      (hadamard_transform_ref reshape_is_view (Some scipy_hadamard) xp scale) h
      = Ok rp /\
    r = concat (map (firstn dim)
                  (rows (row_count (shape x)) (2 ^ Nat.log2_up dim) rp)).
Proof.
  intros Hx Hxp Hl Hdim Hshp Hcp.
  set (K := Nat.log2_up dim) in *. set (N := 2 ^ K) in *.
  set (rc := row_count (shape x)) in *.
  assert (HlN : shape_last (shape xp) = Ok N)
    by (rewrite Hshp; apply shape_last_set_last).
  assert (Hrc : row_count (shape xp) = rc)
    by (rewrite Hshp; apply row_count_set_last).
  assert (HN : dim <= N) by apply pow2_log2_up_ge.
  pose proof (well_formed_contents_length Hx Hl) as Hd. fold rc in Hd.
  exists (ref_data (shape x) dim scale (contents h x)),
         (ref_data (shape xp) N scale (contents h xp)).
  split; [now apply hadamard_transform_ref_contents|].
  split; [apply hadamard_transform_ref_contents; auto; apply pow2_pos|].
  unfold ref_data. rewrite Hrc. fold rc. rewrite Hcp.
  assert (Hpad : Forall (fun r => length r = N)
                   (map (fun r => r ++ repeat 0%Z (N - dim))
                      (rows rc dim (contents h x)))).
  { apply Forall_map. eapply Forall_impl; [|apply rows_Forall_length; exact Hd].
    cbv beta. intros r Hr. rewrite length_app, repeat_length, Hr. lia. }
  assert (Hpadlen : length (map (fun r => r ++ repeat 0%Z (N - dim))
                             (rows rc dim (contents h x))) = rc)
    by (now rewrite length_map, rows_length).
  rewrite (rows_concat_eq Hpadlen Hpad).
  assert (Hout : Forall (fun r => length r = N)
                   (map (ref_row N scale)
                      (map (fun r => r ++ repeat 0%Z (N - dim))
                         (rows rc dim (contents h x)))))
    by (apply Forall_map, Forall_forall; intros r _; apply ref_row_length).
  assert (Houtlen : length (map (ref_row N scale)
                             (map (fun r => r ++ repeat 0%Z (N - dim))
                                (rows rc dim (contents h x)))) = rc)
    by (now rewrite !length_map, rows_length).
  rewrite (rows_concat_eq Houtlen Hout), !map_map.
  f_equal. apply map_ext_in. intros r Hin.
  pose proof (rows_Forall_length _ _ _ Hd) as HF.
  rewrite Forall_forall in HF. specialize (HF r Hin).
  subst N. rewrite ref_row_pow2
    by (rewrite length_app, repeat_length, HF; lia).
  reflexivity.
Qed.

Lemma X6_witness :
  exists r rp,
    run_contents
      (hadamard_transform_ref (fun _ _ => true) (Some scipy_hadamard) ex_x 3)
      ex_heap_pad = Ok r /\
    run_contents
      (hadamard_transform_ref (fun _ _ => true) (Some scipy_hadamard) ex_xp 3)
      ex_heap_pad = Ok rp /\
    r = concat (map (firstn 3) (rows 2 4 rp)).
Proof.
  apply (@X6_ref_implicit_padding (fun _ _ => true) ex_heap_pad ex_x ex_xp
           3 3);
    try reflexivity; try (split; simpl; [lia|reflexivity]); lia.
Defined.

Lemma sylvester_hd k : hd [] (sylvester k) = repeat 1%Z (2 ^ k).
Proof.
  induction k as [|k IH]; [reflexivity|].
  rewrite sylvester_succ.
  destruct (sylvester k) as [|r0 H] eqn:E.
  - pose proof (sylvester_length k) as HL. rewrite E in HL.
    pose proof (pow2_pos k). simpl in HL. lia.
  - cbn [map app hd] in *. rewrite IH, <- repeat_app. f_equal. simpl. lia.
Qed.

Lemma dot_ones v n : length v <= n -> dot v (repeat 1%Z n) = vsum v.
Proof.
  revert n; induction v as [|a v IH]; intros n H; [reflexivity|].
  destruct n as [|n]; [simpl in H; lia|].
  cbn [repeat]. rewrite dot_cons, IH by (simpl in H; lia).
  unfold vsum. simpl. lia.
Qed.

Lemma vsum_pad r q : vsum (r ++ repeat 0%Z q) = vsum r.
Proof.
  unfold vsum. induction r as [|a r IH]; simpl.
  - induction q; simpl; auto.
  - now rewrite IH.
Qed.

Lemma ref_row_hd dim scale r :
  length r = dim -> 0 < dim ->
  hd 0%Z (ref_row dim scale r) = (scale * vsum r)%Z.
Proof.
  intros Hr Hdim. unfold ref_row, matvec.
  pose proof (sylvester_hd (Nat.log2_up dim)) as Hh.
  pose proof (pow2_log2_up_ge dim) as Hge.
  destruct (sylvester (Nat.log2_up dim)) as [|r0 H] eqn:E.
  - pose proof (sylvester_length (Nat.log2_up dim)) as HL. rewrite E in HL.
    pose proof (pow2_pos (Nat.log2_up dim)). simpl in HL. lia.
  - cbn [hd] in Hh. subst r0. destruct dim as [|d]; [lia|].
    cbn [map firstn hd].
    rewrite dot_ones by (rewrite length_app, repeat_length; lia).
    rewrite vsum_pad. lia.
Qed.

Lemma rows_ref_data s dim scale d :
  rows (row_count s) dim (ref_data s dim scale d) =
  map (ref_row dim scale) (rows (row_count s) dim d).
Proof.
  unfold ref_data. apply rows_concat_eq.
  - now rewrite length_map, rows_length.
  - apply Forall_map, Forall_forall. intros r _. apply ref_row_length.
Qed.

(** X8: the first element of every row of the result is the scale times the
    sum of that row of the input: the first row of the Hadamard matrix is all
    ones, and the zeros of the padding add nothing. *)
Theorem X8_ref_first_element_is_sum
  (reshape_is_view : Tensor -> list nat -> bool)
  (h : Heap) (x : Tensor) (dim : nat) (scale : Z) :
  well_formed h x ->
  shape_last (shape x) = Ok dim ->
  0 < dim ->
  exists r,
    run_contents
      (hadamard_transform_ref reshape_is_view (Some scipy_hadamard) x scale) h
      = Ok r /\
    map (hd 0%Z) (rows (row_count (shape x)) dim r) =
    map (fun row => (scale * vsum row)%Z)
      (rows (row_count (shape x)) dim (contents h x)).
Proof.
  intros Hx Hl Hdim.
  exists (ref_data (shape x) dim scale (contents h x)).
  split; [now apply hadamard_transform_ref_contents|].
  rewrite rows_ref_data, map_map. apply map_ext_in. intros r Hin.
  pose proof (rows_Forall_length _ _ _ (well_formed_contents_length Hx Hl))
    as HF.
  rewrite Forall_forall in HF. apply ref_row_hd; auto.
Qed.

Lemma X8_witness :
  exists r,
    run_contents
      (hadamard_transform_ref (fun _ _ => true) (Some scipy_hadamard) ex_x 3)
      ex_heap = Ok r /\
    map (hd 0%Z) (rows 2 3 r) = [6; 30]%Z.
Proof.
  apply (@X8_ref_first_element_is_sum (fun _ _ => true) ex_heap ex_x 3 3);
    [split; simpl; [lia|reflexivity] | reflexivity | lia].
Defined.

Lemma sylvester_entries k :
  Forall (Forall (fun e => (Z.abs e <= 1)%Z)) (sylvester k).
Proof.
  induction k as [|k IH]; [repeat constructor; simpl; lia|].
  rewrite sylvester_succ. apply Forall_app. split; apply Forall_map;
    (eapply Forall_impl; [|exact IH]); cbv beta; intros r Hr;
    apply Forall_app; split; auto.
  apply Forall_map. eapply Forall_impl; [|exact Hr].
  cbv beta. intros e He. now rewrite Z.abs_opp.
Qed.

Lemma norm1_nonneg v : (0 <= norm1 v)%Z.
Proof. induction v as [|a v IH]; simpl; lia. Qed.

Lemma norm1_pad r q : norm1 (r ++ repeat 0%Z q) = norm1 r.
Proof.
  induction r as [|a r IH]; simpl.
  - induction q; simpl; auto.
  - now rewrite IH.
Qed.

Lemma dot_bound v w :
  Forall (fun e => (Z.abs e <= 1)%Z) w -> (Z.abs (dot v w) <= norm1 v)%Z.
Proof.
  intros Hw; revert v; induction Hw as [|b w Hb _ IH]; intros v.
  - rewrite dot_nil_r. apply norm1_nonneg.
  - destruct v as [|a v]; [simpl; lia|].
    rewrite dot_cons. cbn [norm1 fold_right]. fold (norm1 v).
    specialize (IH v).
    pose proof (Z.abs_triangle (a * b) (dot v w)).
    rewrite Z.abs_mul in *. pose proof (Z.abs_nonneg a). nia.
Qed.

Lemma Forall_prefix (P : Z -> Prop) (l : list Z) (n : nat) :
  Forall P l -> Forall P (firstn n l).
Proof.
  intros H. rewrite <- (firstn_skipn n l) in H.
  now apply Forall_app in H.
Qed.

Lemma ref_row_bound dim scale r :
  Forall (fun y => (Z.abs y <= Z.abs scale * norm1 r)%Z) (ref_row dim scale r).
Proof.
  unfold ref_row, matvec. apply Forall_prefix, Forall_map, Forall_map.
  eapply Forall_impl; [|apply sylvester_entries].
  cbv beta. intros w Hw.
  pose proof (dot_bound (r ++ repeat 0%Z (2 ^ Nat.log2_up dim - dim)) Hw)
    as Hb.
  rewrite norm1_pad in Hb. rewrite Z.abs_mul.
  pose proof (Z.abs_nonneg scale). nia.
Qed.

Lemma Forall2_map_r {A B} (P : A -> B -> Prop) (f : A -> B) l :
  Forall (fun a => P a (f a)) l -> Forall2 P l (map f l).
Proof. induction 1; simpl; constructor; auto. Qed.

(** X9: no element of the result is larger in absolute value than the
    absolute value of the scale times the sum of the absolute values of its
    row of the input: the entries of the Hadamard matrix are 1 and -1. *)
Theorem X9_ref_bounded_by_row_norm
  (reshape_is_view : Tensor -> list nat -> bool)
  (h : Heap) (x : Tensor) (dim : nat) (scale : Z) :
  well_formed h x ->
  shape_last (shape x) = Ok dim ->
  0 < dim ->
  exists r,
    run_contents
      (hadamard_transform_ref reshape_is_view (Some scipy_hadamard) x scale) h
      = Ok r /\
    Forall2
      (fun row_in row_out =>
         Forall (fun y => (Z.abs y <= Z.abs scale * norm1 row_in)%Z) row_out)
      (rows (row_count (shape x)) dim (contents h x))
      (rows (row_count (shape x)) dim r).
Proof.
  intros Hx Hl Hdim.
  exists (ref_data (shape x) dim scale (contents h x)).
  split; [now apply hadamard_transform_ref_contents|].
  rewrite rows_ref_data. apply Forall2_map_r, Forall_forall.
  intros r _. apply ref_row_bound.
Qed.

Lemma X9_witness :
  exists r,
    run_contents
      (hadamard_transform_ref (fun _ _ => true) (Some scipy_hadamard) ex_x 3)
      ex_heap = Ok r /\
    Forall2
      (fun row_in row_out =>
         Forall (fun y => (Z.abs y <= Z.abs 3 * norm1 row_in)%Z) row_out)
      (rows 2 3 (contents ex_heap ex_x)) (rows 2 3 r).
Proof.
  apply (@X9_ref_bounded_by_row_norm (fun _ _ => true) ex_heap ex_x 3 3);
    [split; simpl; [lia|reflexivity] | reflexivity | lia].
Defined.

(** ** Further properties of the autograd functions *)

Lemma generic_backward_unset kernel ctx g h :
  _hadamard_transform_scale ctx = None \/ _inplace ctx = None ->
  generic_backward kernel ctx g h = (Raise AttributeError, h).
Proof.
  unfold generic_backward, bind, get_attr.
  destruct ctx as [[s|] [i|]]; cbn; intros [H|H];
    try discriminate H; reflexivity.
Qed.

(** X10: a [backward] run on a context in which [forward] has not stored the
    scale or the flag raises [AttributeError] before the kernel is called:
    the heap is as it was, whatever the kernels are.  This holds for each of
    the five autograd functions. *)
Theorem X10_backward_needs_forward
  (cuda : CudaModule) (ctx : Ctx) (g : Tensor) (h : Heap) :
  _hadamard_transform_scale ctx = None \/ _inplace ctx = None ->
  HadamardTransformFn.backward cuda ctx g h = (Raise AttributeError, h) /\
  HadamardTransform12NFn.backward cuda ctx g h = (Raise AttributeError, h) /\
  HadamardTransform20NFn.backward cuda ctx g h = (Raise AttributeError, h) /\
  HadamardTransform28NFn.backward cuda ctx g h = (Raise AttributeError, h) /\
  HadamardTransform40NFn.backward cuda ctx g h = (Raise AttributeError, h).
Proof.
  intros H. repeat split;
    [ change (HadamardTransformFn.backward cuda)
        with (generic_backward (fast_hadamard_transform cuda))
    | change (HadamardTransform12NFn.backward cuda)
        with (generic_backward (fast_hadamard_transform_12N cuda))
    | change (HadamardTransform20NFn.backward cuda)
        with (generic_backward (fast_hadamard_transform_20N cuda))
    | change (HadamardTransform28NFn.backward cuda)
        with (generic_backward (fast_hadamard_transform_28N cuda))
    | change (HadamardTransform40NFn.backward cuda)
        with (generic_backward (fast_hadamard_transform_40N cuda)) ];
    now apply generic_backward_unset.
Qed.

Lemma X10_witness :
  HadamardTransformFn.backward ex_cuda empty_ctx ex_x ex_heap
  = (Raise AttributeError, ex_heap).
Proof.
  apply (@X10_backward_needs_forward ex_cuda empty_ctx ex_x ex_heap).
  left. reflexivity.
Defined.

Lemma apply_generic_forward_kernel kernel x scale inplace h :
  apply (generic_forward kernel) x scale inplace h = kernel x scale inplace h.
Proof.
  rewrite apply_generic_forward.
  destruct (kernel x scale inplace h) as [[out|e] h']; reflexivity.
Qed.

(** X11: each of the five public functions returns what its own kernel
    returns on the same tensor, scale and flag: the same tensor and heap, or
    the same exception.  The autograd context is dropped, and no other
    kernel is called. *)
Theorem X11_public_functions_are_their_kernels
  (cuda : CudaModule) (x : Tensor) (scale : Z) (inplace : bool) (h : Heap) :
  hadamard_transform cuda x scale inplace h
    = fast_hadamard_transform cuda x scale inplace h /\
  hadamard_transform_12N cuda x scale inplace h
    = fast_hadamard_transform_12N cuda x scale inplace h /\
  hadamard_transform_20N cuda x scale inplace h
    = fast_hadamard_transform_20N cuda x scale inplace h /\
  hadamard_transform_28N cuda x scale inplace h
    = fast_hadamard_transform_28N cuda x scale inplace h /\
  hadamard_transform_40N cuda x scale inplace h
    = fast_hadamard_transform_40N cuda x scale inplace h.
Proof.
  repeat split;
    [ change (hadamard_transform cuda)
        with (apply (generic_forward (fast_hadamard_transform cuda)))
    | change (hadamard_transform_12N cuda)
        with (apply (generic_forward (fast_hadamard_transform_12N cuda)))
    | change (hadamard_transform_20N cuda)
        with (apply (generic_forward (fast_hadamard_transform_20N cuda)))
    | change (hadamard_transform_28N cuda)
        with (apply (generic_forward (fast_hadamard_transform_28N cuda)))
    | change (hadamard_transform_40N cuda)
        with (apply (generic_forward (fast_hadamard_transform_40N cuda))) ];
    apply apply_generic_forward_kernel.
Qed.
